(** * LLAMA-16 assembler (src/asm/core.py): a shallow embedding and its properties

    The class [Assembler] is embedded as a state record threaded through an
    error monad.  [write_error] (a diagnostic followed by [sys.exit(1)]) and
    uncaught Python exceptions are the two ways a run stops early.

    Source text is modelled as [string]: a sequence of code points below 256.
    Debug printing is not modelled (it never changes control flow). *)

From Stdlib Require Import ZArith NArith Ascii String Bool Lia.
From Stdlib.Strings Require Import Byte.
From stdpp Require Import base option gmap strings list.

Local Open Scope string_scope.
Local Open Scope Z_scope.

(** ** Python's [str] operations used by the assembler *)

Module PyStr.

Definition code (c : ascii) : Z := Z.of_N (N_of_ascii c).

Definition between (lo hi : Z) (c : ascii) : bool :=
  (lo <=? code c) && (code c <=? hi).

(** [str.isspace] on one character: TAB..CR, FS..US, SPACE, NEL, NBSP. *)
Definition isspace (c : ascii) : bool :=
  between 9 13 c || between 28 32 c || (code c =? 133) || (code c =? 160).

Fixpoint lstrip_by (p : ascii -> bool) (s : string) : string :=
  match s with
  | String c s' => if p c then lstrip_by p s' else s
  | EmptyString => EmptyString
  end.

Fixpoint rstrip_by (p : ascii -> bool) (s : string) : string :=
  match s with
  | EmptyString => EmptyString
  | String c s' =>
      match rstrip_by p s' with
      | EmptyString => if p c then EmptyString else String c EmptyString
      | r => String c r
      end
  end.

Definition lstrip : string -> string := lstrip_by isspace.
Definition rstrip : string -> string := rstrip_by isspace.
Definition strip (s : string) : string := rstrip (lstrip s).

Fixpoint mem_char (c : ascii) (chars : string) : bool :=
  match chars with
  | EmptyString => false
  | String d chars' => Ascii.eqb c d || mem_char c chars'
  end.

(** [s.strip(chars)]: every leading and trailing character of the set goes. *)
Definition strip_chars (chars s : string) : string :=
  rstrip_by (fun c => mem_char c chars) (lstrip_by (fun c => mem_char c chars) s).

(** [s.translate(table)]: [Some d] replaces, [None] deletes. *)
Fixpoint translate (table : ascii -> option ascii) (s : string) : string :=
  match s with
  | EmptyString => EmptyString
  | String c s' =>
      match table c with
      | Some d => String d (translate table s')
      | None => translate table s'
      end
  end.

(** The table [{9: 32}]. *)
Definition tab_to_space (c : ascii) : option ascii :=
  if code c =? 9 then Some (ascii_of_nat 32) else Some c.

(** The tables [{91: None, 93: None}] and [{35: None}]. *)
Definition delete_codes (codes : list Z) (c : ascii) : option ascii :=
  if existsb (Z.eqb (code c)) codes then None else Some c.

Fixpoint drop (n : nat) (s : string) : string :=
  match n, s with
  | S n', String _ s' => drop n' s'
  | _, _ => s
  end.

Definition startswith (s pre : string) : bool := String.prefix pre s.

(** First occurrence of a non-empty [sep]: the text before and after it. *)
Fixpoint find_split (sep s : string) : option (string * string) :=
  if startswith s sep then Some (EmptyString, drop (String.length sep) s)
  else match s with
       | EmptyString => None
       | String c s' =>
           match find_split sep s' with
           | Some (a, b) => Some (String c a, b)
           | None => None
           end
       end.

(** Last occurrence of a non-empty [sep]. *)
Fixpoint rfind_split (sep s : string) : option (string * string) :=
  match s with
  | EmptyString => None
  | String c s' =>
      match rfind_split sep s' with
      | Some (a, b) => Some (String c a, b)
      | None =>
          if startswith s sep then Some (EmptyString, drop (String.length sep) s)
          else None
      end
  end.

Definition partition (s sep : string) : string * string * string :=
  match find_split sep s with
  | Some (a, b) => (a, sep, b)
  | None => (s, EmptyString, EmptyString)
  end.

Definition rpartition (s sep : string) : string * string * string :=
  match rfind_split sep s with
  | Some (a, b) => (a, sep, b)
  | None => (EmptyString, EmptyString, s)
  end.

(** [s.split(sep)[0]]. *)
Definition split_head (s sep : string) : string :=
  match find_split sep s with
  | Some (a, _) => a
  | None => s
  end.

(** [str.lower]: A..Z and the accented capitals U+00C0..U+00DE (not U+00D7). *)
Definition lower_char (c : ascii) : ascii :=
  if between 65 90 c || (between 192 222 c && negb (code c =? 215))
  then ascii_of_N (N_of_ascii c + 32) else c.

Fixpoint lower (s : string) : string :=
  match s with
  | EmptyString => EmptyString
  | String c s' => String (lower_char c) (lower s')
  end.

Fixpoint all_chars (p : ascii -> bool) (s : string) : bool :=
  match s with
  | EmptyString => true
  | String c s' => p c && all_chars p s'
  end.

Definition nonempty (s : string) : bool :=
  match s with EmptyString => false | _ => true end.

Definition is_decimal (c : ascii) : bool := between 48 57 c.

(** Superscript two, three and one count as digits for [isdigit]. *)
Definition isdigit_char (c : ascii) : bool :=
  is_decimal c || (code c =? 178) || (code c =? 179) || (code c =? 185).

Definition isalpha_char (c : ascii) : bool :=
  between 65 90 c || between 97 122 c
  || (code c =? 170) || (code c =? 181) || (code c =? 186)
  || between 192 214 c || between 216 246 c || between 248 255 c.

Definition isalnum_char (c : ascii) : bool :=
  isalpha_char c || isdigit_char c || between 188 190 c.

Definition isdigit (s : string) : bool := nonempty s && all_chars isdigit_char s.
Definition isalnum (s : string) : bool := nonempty s && all_chars isalnum_char s.

(** [s[0].isdigit()] for a non-empty [s]. *)
Definition head_isdigit (s : string) : bool :=
  match s with
  | String c _ => isdigit_char c
  | EmptyString => false
  end.

(** *** [int(s)], base 10

    Digits may be grouped by single underscores; one sign may precede them;
    blanks around the literal are dropped.  [None] stands for [ValueError].
    The interpreter's cap on the number of digits of a literal is not
    modelled. *)

Fixpoint int_digits (s : string) (acc : Z) (after_digit : bool) : option Z :=
  match s with
  | EmptyString => if after_digit then Some acc else None
  | String c s' =>
      if is_decimal c then int_digits s' (10 * acc + (code c - 48)) true
      else if (code c =? 95) && after_digit then int_digits s' acc false
      else None
  end.

Definition c_isspace (c : ascii) : bool := between 9 13 c || (code c =? 32).

(** For text that is not pure ASCII, [int] first maps the non-ASCII blanks
    to a space and every other non-ASCII character to a question mark. *)
Definition is_ascii (s : string) : bool := all_chars (fun c => code c <? 128) s.

Definition int_fold_char (c : ascii) : option ascii :=
  if code c <? 127 then Some c
  else if isspace c then Some (ascii_of_nat 32) else Some (ascii_of_nat 63).

Definition int (s : string) : option Z :=
  let s := if is_ascii s then s else translate int_fold_char s in
  let s := rstrip_by c_isspace (lstrip_by c_isspace s) in
  match s with
  | String c s' =>
      if code c =? 45 then Z.opp <$> int_digits s' 0 false
      else if code c =? 43 then int_digits s' 0 false
      else int_digits s 0 false
  | EmptyString => None
  end.

(** *** Decimal rendering of an integer, as an f-string prints it *)

Definition digit_char (d : Z) : ascii := ascii_of_N (Z.to_N (48 + d)).

Fixpoint pos_digits (fuel : nat) (n : Z) (acc : string) : string :=
  match fuel with
  | O => acc
  | S fuel' =>
      let acc' := String (digit_char (n mod 10)) acc in
      if n <? 10 then acc' else pos_digits fuel' (n / 10) acc'
  end.

Definition str_of_int (n : Z) : string :=
  if n <? 0 then String (ascii_of_nat 45) (pos_digits (Z.to_nat (- n)) (- n) EmptyString)
  else pos_digits (S (Z.to_nat n)) n EmptyString.

(** *** [bytes(s, encoding='utf-8')] *)

Definition byte_of_Z (n : Z) : byte := byte_of_ascii (ascii_of_N (Z.to_N n)).

Definition utf8_char (c : ascii) : list byte :=
  if code c <? 128 then [byte_of_ascii c]
  else [byte_of_Z (Z.lor 192 (Z.shiftr (code c) 6));
        byte_of_Z (Z.lor 128 (Z.land (code c) 63))].

Fixpoint utf8 (s : string) : list byte :=
  match s with
  | EmptyString => []
  | String c s' => utf8_char c ++ utf8 s'
  end.

(** [s.replace(old, new)] for a non-empty [old], leftmost occurrences first. *)
Fixpoint replace_go (fuel : nat) (old new s : string) : string :=
  match fuel with
  | O => s
  | S fuel' =>
      if startswith s old
      then new ++ replace_go fuel' old new (drop (String.length old) s)
      else match s with
           | EmptyString => EmptyString
           | String c s' => String c (replace_go fuel' old new s')
           end
  end.

Definition replace (s old new : string) : string :=
  replace_go (S (String.length s)) old new s.

(** Truth value of a [str]. *)
Definition truthy : string -> bool := nonempty.

End PyStr.

(** ** Outcomes *)

(** Uncaught exceptions.  [RecursionError] is how a run ends that starts the
    assembler again from inside [process] without bound. *)
Inductive PyExn : Type :=
| TypeError
| ValueError
| OverflowError
| KeyError
| RecursionError.

(** [Exit n msg] is [write_error]: the diagnostic names line [n], then
    [sys.exit(1)].  [Raise e] is an uncaught exception (traceback, status 1). *)
Inductive result (A : Type) : Type :=
| Ok (a : A)
| Exit (line : Z) (message : string)
| Raise (e : PyExn).

Arguments Ok {A} a.
Arguments Exit {A} line message.
Arguments Raise {A} e.

#[global] Instance result_ret : MRet result := fun _ a => Ok a.

#[global] Instance result_bind : MBind result := fun _ _ f m =>
  match m with
  | Ok a => f a
  | Exit n msg => Exit n msg
  | Raise e => Raise e
  end.

Definition is_ok {A} (r : result A) : bool :=
  match r with Ok _ => true | _ => false end.

(** ** Integers to bytes: [int.to_bytes(2, byteorder="little", ...)] *)

Definition word_bytes (n : Z) : list byte :=
  [PyStr.byte_of_Z (Z.land n 255); PyStr.byte_of_Z (Z.land (Z.shiftr n 8) 255)].

Definition to_bytes_unsigned (n : Z) : result (list byte) :=
  if (0 <=? n) && (n <? 65536) then Ok (word_bytes n) else Raise OverflowError.

Definition to_bytes_signed (n : Z) : result (list byte) :=
  if (-32768 <=? n) && (n <? 32768) then Ok (word_bytes (n mod 65536))
  else Raise OverflowError.

(** [int(number, 16)] applied to a value that is already an [int]: an explicit
    base is only accepted with text. *)
Definition int_with_base (number base : Z) : result Z := Raise TypeError.

(** ** The assembler object *)

Record Assembler : Type := mkAssembler {
  line_number : Z;
  pass_number : option Z;   (* the instance attribute, once assigned *)
  address : Z;
  output : list byte;
  label : string;
  mnemonic : string;
  op1 : string;
  op2 : string;
  comment : string;
  op1_type : string;
  op2_type : string;
  symbol_table : gmap string Z
}.

Definition ORIGIN : Z := 0x4000.

Definition registers : list string := ["a"; "b"; "c"; "d"; "ip"; "sp"; "bp"].

(** The class attribute [pass_number = 1]: attribute lookup falls back on it,
    and [hasattr] sees it whether or not the instance has its own value. *)
Definition class_pass_number : Z := 1.

Definition get_pass_number (self : Assembler) : Z :=
  default class_pass_number (pass_number self).

Definition hasattr_pass_number (self : Assembler) : bool :=
  match pass_number self with
  | Some _ => true
  | None => true
  end.

(** A new object: every attribute still comes from the class. *)
Definition fresh : Assembler :=
  {| line_number := 0; pass_number := None; address := 0; output := [];
     label := ""; mnemonic := ""; op1 := ""; op2 := ""; comment := "";
     op1_type := ""; op2_type := ""; symbol_table := ∅ |}.

Definition set_line_number (self : Assembler) (v : Z) : Assembler :=
  mkAssembler v (pass_number self) (address self) (output self) (label self)
    (mnemonic self) (op1 self) (op2 self) (comment self) (op1_type self)
    (op2_type self) (symbol_table self).

Definition set_pass_number (self : Assembler) (v : Z) : Assembler :=
  mkAssembler (line_number self) (Some v) (address self) (output self) (label self)
    (mnemonic self) (op1 self) (op2 self) (comment self) (op1_type self)
    (op2_type self) (symbol_table self).

Definition set_address (self : Assembler) (v : Z) : Assembler :=
  mkAssembler (line_number self) (pass_number self) v (output self) (label self)
    (mnemonic self) (op1 self) (op2 self) (comment self) (op1_type self)
    (op2_type self) (symbol_table self).

Definition set_output (self : Assembler) (v : list byte) : Assembler :=
  mkAssembler (line_number self) (pass_number self) (address self) v (label self)
    (mnemonic self) (op1 self) (op2 self) (comment self) (op1_type self)
    (op2_type self) (symbol_table self).

Definition set_symbol_table (self : Assembler) (v : gmap string Z) : Assembler :=
  mkAssembler (line_number self) (pass_number self) (address self) (output self)
    (label self) (mnemonic self) (op1 self) (op2 self) (comment self)
    (op1_type self) (op2_type self) v.

(** The double quote character, for diagnostics that quote a token. *)
Definition dq : string := String (ascii_of_nat 34) EmptyString.

Definition quoted (s : string) : string := dq ++ s ++ dq.

Definition write_error {A} (self : Assembler) (message : string) : result A :=
  Exit (line_number self + 1) message.

Definition verify_ops (self : Assembler) (valid : bool) : result unit :=
  if negb valid
  then write_error self ("Invalid operands for mnemonic " ++ quoted (mnemonic self))
  else Ok tt.

(** ** Tokenizer *)

Definition parse_directive (self : Assembler) (line : string)
  : result (string * string * string) :=
  let '(left1, sep1, right1) := PyStr.partition line ".data" in
  let d_type := ".data" in
  let '(left1, sep1, right1, d_type) :=
    if negb (PyStr.truthy sep1)
    then (PyStr.partition line ".string", ".string")
    else (left1, sep1, right1, d_type) in
  if negb (PyStr.truthy sep1) then Ok ("", "", "")
  else
    let directive := d_type in
    let d_args := PyStr.strip right1 in
    let '(left2, sep2, right2) := PyStr.partition left1 ":" in
    if String.eqb sep2 ":" then
      let left2 := PyStr.strip left2 in
      (if negb (PyStr.isalnum left2) || PyStr.head_isdigit left2
       then write_error self ("Invalid label " ++ quoted left2)
       else Ok tt) ;;
      Ok (left2, directive, d_args)
    else if negb (String.eqb sep2 ":") && negb (String.eqb (PyStr.strip left2) "")
    then write_error self ("Invalid label " ++ quoted left2)
    else Ok ("", directive, d_args).

(** Operand classification.  [regs] is [registers[0:4]] for operand 1 and
    [registers] for operand 2; [key] is the text looked up among them.  The
    result is the kind and the operand text with its marker removed. *)
Definition classify (regs : list string) (op key : string) : string * string :=
  if PyStr.startswith op "[" then
    ("mem_adr", PyStr.translate (PyStr.delete_codes [91; 93]) op)
  else if PyStr.startswith op "#" then
    ("imm", PyStr.translate (PyStr.delete_codes [35]) op)
  else if existsb (String.eqb key) regs then ("reg", op)
  else ("label", op).

Definition parse (line : string) (self : Assembler) : result Assembler :=
  let preprocess := PyStr.lstrip line in
  let preprocess := PyStr.translate PyStr.tab_to_space preprocess in
  (* Comments *)
  let '(comment_left, comment_separator, comment_right) :=
    PyStr.rpartition preprocess ";" in
  let comment_ := if PyStr.truthy comment_separator then PyStr.strip comment_right else "" in
  let comment_left :=
    if PyStr.truthy comment_separator then comment_left else PyStr.rstrip comment_right in
  '(d_label, directive, d_args) ← parse_directive self comment_left;
  let is_dir := PyStr.truthy directive in
  let label_ := if is_dir then PyStr.lower d_label else "" in
  let op1_ := if is_dir then PyStr.lower d_args else "" in
  let op1_type_ := if is_dir then PyStr.split_head directive "." else "" in
  (* Second operand *)
  let '(op2_left, op2_separator, op2_right) := PyStr.rpartition comment_left "," in
  let op2_ := if PyStr.truthy op2_separator then PyStr.strip op2_right else "" in
  let op2_left := if PyStr.truthy op2_separator then op2_left else PyStr.rstrip op2_right in
  (* First operand *)
  let '(op1_left_t, op1_separator_t, op1_right_t) := PyStr.rpartition op2_left (String (ascii_of_nat 9) EmptyString) in
  let '(op1_left_s, op1_separator_s, op1_right_s) := PyStr.rpartition op2_left " " in
  let by_tab := String.eqb op1_separator_t (String (ascii_of_nat 9) EmptyString) in
  let by_space := String.eqb op1_separator_s " " in
  let op1_ :=
    if by_tab then PyStr.strip op1_right_t
    else if by_space then PyStr.strip op1_right_s
    else op1_ in
  let op1_left :=
    if by_tab then op1_left_t
    else if by_space then op1_left_s
    else PyStr.strip op1_right_s in
  (* mnemonic from label *)
  let '(mnemonic_left, mnemonic_separator, mnemonic_right) := PyStr.rpartition op1_left ":" in
  let has_colon := PyStr.truthy mnemonic_separator in
  let mnemonic_ :=
    if has_colon then PyStr.strip mnemonic_right
    else PyStr.strip (PyStr.rstrip mnemonic_right) in
  let label_ := if has_colon then PyStr.strip mnemonic_left else label_ in
  (* Fix when mnemonic ends up as first operand *)
  let fix_ := negb (PyStr.truthy mnemonic_) && PyStr.truthy op1_ && negb (PyStr.truthy op2_) in
  let mnemonic_ := if fix_ then PyStr.strip op1_ else mnemonic_ in
  let op1_ := if fix_ then "" else op1_ in
  let op1_ := PyStr.lower op1_ in
  let '(op1_type_, op1_, label_) :=
    if PyStr.truthy op1_ then
      let '(kind, text) := classify (take 4 registers) op1_ op1_ in
      (kind, text, if String.eqb kind "label" then PyStr.lower label_ else label_)
    else (op1_type_, op1_, label_) in
  let op2_ := PyStr.lower op2_ in
  let '(op2_type_, op2_, label_) :=
    if PyStr.truthy op2_ then
      let '(kind, text) := classify registers op2_ (PyStr.lower op2_) in
      (kind, text, if String.eqb kind "label" then PyStr.lower label_ else label_)
    else ("", op2_, label_) in
  let mnemonic_ := PyStr.lower mnemonic_ in
  Ok {| line_number := line_number self; pass_number := pass_number self;
        address := address self; output := output self;
        label := label_; mnemonic := mnemonic_; op1 := op1_; op2 := op2_;
        comment := comment_; op1_type := op1_type_; op2_type := op2_type_;
        symbol_table := symbol_table self |}.

(** ** Symbol table and pass action *)

Definition add_label (self : Assembler) : result Assembler :=
  let symbol := PyStr.lower (label self) in
  (if bool_decide (is_Some (symbol_table self !! symbol))
   then write_error self ("Duplicate label: " ++ quoted (label self))
   else Ok tt) ;;
  Ok (set_symbol_table self (<[symbol := address self + ORIGIN]> (symbol_table self))).

Definition get_label (self : Assembler) (label : string) : result Z :=
  if bool_decide (is_Some (symbol_table self !! PyStr.lower label))
  then match symbol_table self !! label with
       | Some v => Ok v
       | None => Raise KeyError
       end
  else write_error self ("Undefined label " ++ quoted label).

Definition to_int (val : string) : result (option Z) :=
  if PyStr.isdigit val || PyStr.startswith val "-"
  then match PyStr.int val with
       | Some n => Ok (Some n)
       | None => Raise ValueError
       end
  else Ok None.

(** [to_int(op) or get_label(op)]: zero and [None] are both false. *)
Definition to_int_or_get_label (self : Assembler) (op : string) : result Z :=
  v ← to_int op;
  match v with
  | Some n => if n =? 0 then get_label self op else Ok n
  | None => get_label self op
  end.

(** [int(size/2)] rounds the quotient towards zero. *)
Definition pass_action (self : Assembler) (size : Z) (output_byte : list byte)
  : result Assembler :=
  match output_byte with
  | [] => Ok self
  | _ =>
      self ← (if get_pass_number self =? 1 then
                let align := size mod 2 in
                self ← (if PyStr.truthy (label self) then add_label self else Ok self);
                Ok (set_address self (address self + (Z.quot size 2 + align)))
              else Ok self);
      Ok (set_output self (output self ++ output_byte))
  end.

(** ** Encoder *)

Fixpoint index_of (x : string) (l : list string) : option Z :=
  match l with
  | [] => None
  | y :: l' => if String.eqb x y then Some 0 else Z.succ <$> index_of x l'
  end.

Definition register_offset (self : Assembler) (reg_in : string) : result Z :=
  let reg := PyStr.lower reg_in in
  match index_of reg registers with
  | None => write_error self ("Invalid register " ++ quoted reg)
  | Some i => Ok i
  end.

(** The patterns of the two [match] statements, whose subject is the pair
    (operand kind, num_ops).  [PLit] is a bare literal, compared with the
    whole subject; [PSeq] lists the alternatives for the first component and
    the literal for the second; [PAny] is [_, n]. *)
Inductive Pattern : Type :=
| PLit (s : string)
| PSeq (alts : list string) (n : Z)
| PAny (n : Z).

Definition matches (p : Pattern) (subject : string * Z) : bool :=
  match p with
  | PLit _ => false   (* text never equals a pair *)
  | PSeq alts n => existsb (String.eqb (fst subject)) alts && (snd subject =? n)
  | PAny n => snd subject =? n
  end.

Definition encode_operand_types (self : Assembler) (opcode num_ops : Z) : result Z :=
  let opcode := Z.shiftl opcode 12 in
  (* num_ops == 1, match op1 type *)
  opcode ←
    (let subject := (op1_type self, num_ops) in
     if matches (PSeq ["imm"] 1) subject then Ok (opcode + Z.shiftl 14 4)
     else if matches (PLit "reg") subject then
       r ← register_offset self (op1 self); Ok (opcode + Z.shiftl r 4)
     else if matches (PSeq ["mem_adr"; "label"] 1) subject then Ok (opcode + Z.shiftl 15 4)
     else if matches (PSeq [""] 1) subject then Ok opcode
     else if matches (PAny 1) subject
     then write_error self ("Invalid operand " ++ quoted (op1 self))
     else Ok opcode);
  (* num_ops == 2, match op2 type *)
  let subject := (op2_type self, num_ops) in
  if matches (PSeq ["reg"] 2) subject then
    r ← register_offset self (op2 self); Ok (opcode + r)
  else if matches (PSeq ["mem_adr"; "label"] 2) subject then Ok (opcode + Z.shiftl 15 4)
  else if matches (PSeq [""] 2) subject then Ok opcode
  else if matches (PAny 2) subject
  then write_error self ("Invalid operand " ++ quoted (op2 self))
  else Ok opcode.

Definition immediate_operand (self : Assembler) : result Assembler :=
  if negb (existsb (String.eqb (op1_type self)) ["imm"; "label"])
     || (get_pass_number self =? 1)
  then Ok self
  else
    let self := set_address self (address self + 1) in
    number ← to_int_or_get_label self (op1 self);
    data ← to_bytes_signed number;
    pass_action self 2 data.

Definition memory_address_step (self : Assembler) (item : string * string)
  : result Assembler :=
  let '(op_typ, op) := item in
  if negb (String.eqb op_typ "mem_adr") then Ok self
  else
    number ← to_int_or_get_label self op;
    number ← int_with_base number 16;
    data ← to_bytes_unsigned number;
    pass_action self 2 data.

Fixpoint for_each {A S} (body : S -> A -> result S) (items : list A) (s : S) : result S :=
  match items with
  | [] => Ok s
  | x :: items' => s' ← body s x; for_each body items' s'
  end.

Definition memory_address (self : Assembler) : result Assembler :=
  if (get_pass_number self =? 1)
     || negb (existsb (String.eqb "mem_adr") [op1_type self; op2_type self])
  then Ok self
  else
    let self := set_address self (address self + 1) in
    for_each memory_address_step
      [(op1_type self, op1 self); (op2_type self, op2 self)] self.

(** ** Mnemonic handlers *)

Definition both (a b : string) : bool := PyStr.truthy a && PyStr.truthy b.
Definition only_first (a b : string) : bool := PyStr.truthy a && negb (PyStr.truthy b).
Definition neither (a b : string) : bool := negb (PyStr.truthy a || PyStr.truthy b).

Definition emit_opcode (self : Assembler) (opcode : Z) : result Assembler :=
  data ← to_bytes_unsigned opcode; pass_action self 2 data.

Definition _mv (self : Assembler) : result Assembler :=
  verify_ops self (both (op1 self) (op2 self)) ;;
  opcode ← encode_operand_types self 0 2;
  self ← emit_opcode self opcode;
  self ← immediate_operand self;
  memory_address self.

Definition _io (self : Assembler) : result Assembler :=
  verify_ops self (both (op1 self) (op2 self)) ;;
  (if String.eqb (op1_type self) "imm" && String.eqb (op2 self) "in"
   then write_error self "Cannot read word into an immediate."
   else Ok tt) ;;
  opcode ← encode_operand_types self 1 1;
  opcode ←
    (if String.eqb (PyStr.lower (op2 self)) "in" then Ok (opcode + 1)
     else if String.eqb (PyStr.lower (op2 self)) "out" then Ok (opcode + 2)
     else write_error self
            ("Error parsing io port. " ++ op2 self ++ " is not a valid port, use IN or OUT."));
  self ← emit_opcode self opcode;
  self ← immediate_operand self;
  memory_address self.

Definition _push (self : Assembler) : result Assembler :=
  verify_ops self (only_first (op1 self) (op2 self)) ;;
  opcode ← encode_operand_types self 2 1;
  self ← emit_opcode self opcode;
  self ← immediate_operand self;
  memory_address self.

Definition _pop (self : Assembler) : result Assembler :=
  verify_ops self (only_first (op1 self) (op2 self)) ;;
  opcode ← encode_operand_types self 3 1;
  self ← emit_opcode self opcode;
  memory_address self.

Definition _add (self : Assembler) : result Assembler :=
  verify_ops self (both (op1 self) (op2 self)) ;;
  opcode ← encode_operand_types self 4 2;
  self ← emit_opcode self opcode;
  self ← immediate_operand self;
  memory_address self.

Definition _sub (self : Assembler) : result Assembler :=
  verify_ops self (both (op1 self) (op2 self)) ;;
  opcode ← encode_operand_types self 5 2;
  self ← emit_opcode self opcode;
  self ← immediate_operand self;
  memory_address self.

Definition _inc (self : Assembler) : result Assembler :=
  verify_ops self (only_first (op1 self) (op2 self)) ;;
  opcode ← encode_operand_types self 6 1;
  emit_opcode self opcode.

Definition _dec (self : Assembler) : result Assembler :=
  verify_ops self (only_first (op1 self) (op2 self)) ;;
  opcode ← encode_operand_types self 7 1;
  emit_opcode self opcode.

Definition _and (self : Assembler) : result Assembler :=
  verify_ops self (both (op1 self) (op2 self)) ;;
  opcode ← encode_operand_types self 8 2;
  self ← emit_opcode self opcode;
  self ← immediate_operand self;
  memory_address self.

Definition _or (self : Assembler) : result Assembler :=
  verify_ops self (both (op1 self) (op2 self)) ;;
  opcode ← encode_operand_types self 9 2;
  self ← emit_opcode self opcode;
  self ← immediate_operand self;
  memory_address self.

Definition _not (self : Assembler) : result Assembler :=
  verify_ops self (both (op1 self) (op2 self)) ;;
  opcode ← encode_operand_types self 10 2;
  self ← emit_opcode self opcode;
  self ← immediate_operand self;
  memory_address self.

Definition _cmp (self : Assembler) : result Assembler :=
  verify_ops self (both (op1 self) (op2 self)) ;;
  opcode ← encode_operand_types self 11 2;
  self ← emit_opcode self opcode;
  self ← immediate_operand self;
  memory_address self.

Definition _call (self : Assembler) : result Assembler :=
  verify_ops self (only_first (op1 self) (op2 self)) ;;
  opcode ← encode_operand_types self 12 1;
  self ← emit_opcode self opcode;
  immediate_operand self.

Definition _jnz (self : Assembler) : result Assembler :=
  verify_ops self (only_first (op1 self) (op2 self)) ;;
  opcode ← encode_operand_types self 13 1;
  self ← emit_opcode self opcode;
  immediate_operand self.

Definition _ret (self : Assembler) : result Assembler :=
  verify_ops self (neither (op1 self) (op2 self)) ;;
  pass_action self 2 [x00; xe0].

Definition _hlt (self : Assembler) : result Assembler :=
  verify_ops self (neither (op1 self) (op2 self)) ;;
  pass_action self 2 [x00; xf0].

Definition require_label (self : Assembler) : result unit :=
  if String.eqb (label self) ""
  then write_error self ".data and .string directives must be labeled"
  else Ok tt.

Definition directive_data (self : Assembler) : result Assembler :=
  require_label self ;;
  verify_ops self (only_first (op1 self) (op2 self)) ;;
  match PyStr.int (op1 self) with
  | Some data => bytes ← to_bytes_signed data; pass_action self 2 bytes
  | None => write_error self ("Error reading " ++ quoted (op1 self) ++ ", not an integer")
  end.

Definition NUL : string := String (ascii_of_nat 0) EmptyString.

Definition directive_string (self : Assembler) : result Assembler :=
  require_label self ;;
  verify_ops self (only_first (op1 self) (op2 self)) ;;
  let string := op1 self in
  let string := PyStr.strip_chars "'" (PyStr.strip_chars dq string) in
  let string :=
    if negb (Z.of_nat (String.length string) mod 2 =? 0)
    then string ++ NUL
    else string ++ NUL ++ NUL in
  let data := PyStr.utf8 string in
  pass_action self (Z.of_nat (length data)) data.

(** ** Dispatch and pass driver *)

(** [hasattr]/[getattr] on the internal name.  Besides the handlers, the
    object has the method [_assemble_line], which cannot be called without
    its argument. *)
Definition handlers : list (string * (Assembler -> result Assembler)) :=
  [("_mv", _mv); ("_io", _io); ("_push", _push); ("_pop", _pop);
   ("_add", _add); ("_sub", _sub); ("_inc", _inc); ("_dec", _dec);
   ("_and", _and); ("_or", _or); ("_not", _not); ("_cmp", _cmp);
   ("_call", _call); ("_jnz", _jnz); ("_ret", _ret); ("_hlt", _hlt);
   ("directive_data", directive_data); ("directive_string", directive_string);
   ("_assemble_line", fun _ => Raise TypeError)].

Fixpoint lookup_handler (name : string)
    (table : list (string * (Assembler -> result Assembler)))
  : option (Assembler -> result Assembler) :=
  match table with
  | [] => None
  | (n, h) :: table' => if String.eqb name n then Some h else lookup_handler name table'
  end.

(** What [getattr(self, name)()] does for a special attribute: the call
    returns (its value is dropped and the object is as before), or it ends in
    an uncaught exception. *)
Inductive SpecialCall : Type :=
| Returns
| Throws (e : PyExn).

(** The special attributes of the object, which defines none of its own
    besides [__init__]: those every instance of [object] has, and [__dict__],
    [__module__] and [__weakref__] of the class (CPython 3.11 and 3.12).
    Called without an argument, a data attribute is not callable and a method
    that wants an argument misses it; [__init__] and [__class__] run the
    constructor, which assembles the same file and arrives at the same line
    again, so the calls nest until the interpreter gives up.  The statements
    below rest on the two kinds of outcome only, not on which name has
    which. *)
Definition special_attributes : list (string * SpecialCall) :=
  [("__class__", Throws RecursionError); ("__delattr__", Throws TypeError);
   ("__dict__", Throws TypeError); ("__dir__", Returns);
   ("__doc__", Throws TypeError); ("__eq__", Throws TypeError);
   ("__format__", Throws TypeError); ("__ge__", Throws TypeError);
   ("__getattribute__", Throws TypeError); ("__getstate__", Returns);
   ("__gt__", Throws TypeError); ("__hash__", Returns);
   ("__init__", Throws RecursionError); ("__init_subclass__", Returns);
   ("__le__", Throws TypeError); ("__lt__", Throws TypeError);
   ("__module__", Throws TypeError); ("__ne__", Throws TypeError);
   ("__new__", Throws TypeError); ("__reduce__", Returns);
   ("__reduce_ex__", Throws TypeError); ("__repr__", Returns);
   ("__setattr__", Throws TypeError); ("__sizeof__", Returns);
   ("__str__", Returns); ("__subclasshook__", Returns);
   ("__weakref__", Throws TypeError)].

Fixpoint lookup_special (name : string) (table : list (string * SpecialCall))
  : option SpecialCall :=
  match table with
  | [] => None
  | (n, c) :: table' => if String.eqb name n then Some c else lookup_special name table'
  end.

(** An internal name starts with [_] or with [directive_], so of the object's
    attributes it can only name a handler, [_assemble_line] or a special
    attribute. *)
Definition process (self : Assembler) : result Assembler :=
  if negb (PyStr.truthy (mnemonic self)) && negb (both (op1 self) (op2 self))
  then Ok self
  else
    (* Internal mnemonic format *)
    let name := PyStr.replace ("_" ++ mnemonic self) "_." "directive_" in
    match lookup_handler name handlers with
    | Some handler => handler self
    | None =>
        match lookup_special name special_attributes with
        | Some Returns => Ok self
        | Some (Throws e) => Raise e
        | None =>
            (* not hasattr(self, mnemonic) *)
            write_error self ("Unrecognized mnemonic " ++ quoted (mnemonic self))
        end
    end.

Definition _assemble_line (self : Assembler) (line : string) : result Assembler :=
  self ← parse line self;
  self ← process self;
  Ok (set_line_number self (line_number self + 1)).

(** The first statement of [assemble]. *)
Definition begin_pass (self : Assembler) : Assembler :=
  set_pass_number self
    (if negb (hasattr_pass_number self) then 1 else get_pass_number self + 1).

Definition assemble (lines : list string) (self : Assembler) : result Assembler :=
  let self := begin_pass self in
  for_each _assemble_line lines self.

(** The two calls of the constructor, both over the lines of the same file. *)
Definition two_passes (lines : list string) : result Assembler :=
  self ← assemble lines fresh;   (* Pass 1 *)
  assemble lines self.           (* Pass 2 *)

(** The states in which the lines of one traversal start, and the state the
    traversal ends in (as far as it gets). *)
Fixpoint trace (lines : list string) (self : Assembler) : list Assembler :=
  self ::
    match lines with
    | [] => []
    | line :: lines' =>
        match _assemble_line self line with
        | Ok self' => trace lines' self'
        | _ => []
        end
    end.

(** Bits [4i+3 .. 4i] of an instruction word. *)
Definition nibble (i : Z) (w : Z) : Z := Z.land (Z.shiftr w (4 * i)) 15.

(** * Vocabulary of the properties *)

(** [s] with the location counter advanced by [da] and [bs] appended to the
    output. *)
Definition upd (s : Assembler) (da : Z) (bs : list byte) : Assembler :=
  set_output (set_address s (address s + da)) (output s ++ bs).

(** [t] shows a handler outside pass 1 what [s] shows it: the same tokens and
    the same symbol table. *)
Record same_view (s t : Assembler) : Prop := {
  sv_label : label s = label t;
  sv_mnemonic : mnemonic s = mnemonic t;
  sv_op1 : op1 s = op1 t;
  sv_op2 : op2 s = op2 t;
  sv_op1_type : op1_type s = op1_type t;
  sv_op2_type : op2_type s = op2_type t;
  sv_symbol_table : symbol_table s = symbol_table t;
  sv_pass : get_pass_number t <> 1
}.

(** A step that, outside pass 1, only advances the counter and appends
    bytes, both determined by the tokens and the symbol table. *)
Definition Eff (f : Assembler -> result Assembler) : Prop :=
  forall s s', get_pass_number s <> 1 -> f s = Ok s' ->
    exists da bs, 0 <= da /\ s' = upd s da bs /\
      forall t, same_view s t -> f t = Ok (upd t da bs).

(** A computation whose value is determined by the tokens and the symbol
    table. *)
Definition Pure {A} (g : Assembler -> result A) : Prop :=
  forall s v, g s = Ok v -> forall t, same_view s t -> g t = Ok v.

(** A token expression: it reads the tokens and the symbol table only. *)
Definition Tok {A} (c : Assembler -> A) : Prop :=
  forall s t, same_view s t -> c s = c t.

(** [t] with the tokens of [s]. *)
Definition retoken (t s : Assembler) : Assembler :=
  mkAssembler (line_number t) (pass_number t) (address t) (output t) (label s)
    (mnemonic s) (op1 s) (op2 s) (comment s) (op1_type s) (op2_type s)
    (symbol_table t).

(** From [s] to [s']: the counter grew by [da], the bytes [bs] were appended,
    and neither the pass number nor the symbol table changed. *)
Record advances (s s' : Assembler) (da : Z) (bs : list byte) : Prop := {
  adv_address : address s' = address s + da;
  adv_output : output s' = (output s ++ bs)%list;
  adv_pass : pass_number s' = pass_number s;
  adv_symbols : symbol_table s' = symbol_table s
}.

(** The advance of a step that succeeded from [s] is the advance of the same
    step from any state outside pass 1 that has the same symbol table. *)
Definition repeatable (f : Assembler -> result Assembler) (s s' : Assembler) : Prop :=
  exists da bs, 0 <= da /\ advances s s' da bs /\
    forall t, symbol_table t = symbol_table s -> get_pass_number t <> 1 ->
      exists t', f t = Ok t' /\ advances t t' da bs.

(** The state a run that succeeded ends in. *)
Definition from_ok (r : result Assembler) : Assembler :=
  match r with
  | Ok s => s
  | _ => fresh
  end.

(** A state of pass [n] with an empty symbol table. *)
Definition in_pass_without_symbols (n : Z) (s : Assembler) : bool :=
  (get_pass_number s =? n) && bool_decide (symbol_table s = ∅).

(** The four nibbles of an instruction word, high to low. *)
Definition fields (w : Z) : Z * Z * Z * Z :=
  (nibble 3 w, nibble 2 w, nibble 1 w, nibble 0 w).

(** The content of a [.string] argument and its padding. *)
Definition string_content (op : string) : string :=
  PyStr.strip_chars "'" (PyStr.strip_chars dq op).

Definition nul_padded (content : string) : string :=
  if Z.odd (Z.of_nat (String.length content)) then content ++ NUL
  else content ++ NUL ++ NUL.

(** A [.string] line whose argument is the text [arg] between double quotes. *)
Definition string_line (arg : string) : string := "msg: .string " ++ quoted arg.

(** ** Reading the output back *)

(** The value of one output byte. *)
Definition byte_val (b : byte) : Z := Z.of_N (N_of_ascii (ascii_of_byte b)).

(** [int.from_bytes(bs, "little")]. *)
Fixpoint from_bytes_unsigned (bs : list byte) : Z :=
  match bs with
  | [] => 0
  | b :: bs' => byte_val b + 256 * from_bytes_unsigned bs'
  end.

(** [int.from_bytes(bs, "little", signed=True)] for a 16-bit word. *)
Definition from_bytes_signed (bs : list byte) : Z :=
  let u := from_bytes_unsigned bs in
  if u <? 32768 then u else u - 65536.

(** Whether the character of code [c] occurs in [s]. *)
Definition has_char (c : Z) (s : string) : bool :=
  negb (PyStr.all_chars (fun a => negb (PyStr.code a =? c)) s).

(** The operand kinds the tokenizer assigns. *)
Definition operand_kinds : list string := [""; "mem_adr"; "imm"; "reg"; "label"].

(** The handlers by the number of operands they verify. *)
Definition two_operand_handlers : list (Assembler -> result Assembler) :=
  [_mv; _io; _add; _sub; _and; _or; _not; _cmp].

Definition one_operand_handlers : list (Assembler -> result Assembler) :=
  [_push; _pop; _inc; _dec; _call; _jnz].

Definition no_operand_handlers : list (Assembler -> result Assembler) :=
  [_ret; _hlt].

(** Each instruction handler with the opcode written in its body. *)
Definition opcodes : list ((Assembler -> result Assembler) * Z) :=
  [(_mv, 0); (_io, 1); (_push, 2); (_pop, 3); (_add, 4); (_sub, 5);
   (_inc, 6); (_dec, 7); (_and, 8); (_or, 9); (_not, 10); (_cmp, 11);
   (_call, 12); (_jnz, 13); (_ret, 14); (_hlt, 15)].

(** The handlers that emit the word [encode_operand_types] computes for one
    operand, and those that emit the word it computes for two, each with its
    opcode.  ([_io] encodes one operand as well, and adds its port code.) *)
Definition encoded_with_one_operand : list ((Assembler -> result Assembler) * Z) :=
  [(_push, 2); (_pop, 3); (_inc, 6); (_dec, 7); (_call, 12); (_jnz, 13)].

Definition encoded_with_two_operands : list ((Assembler -> result Assembler) * Z) :=
  [(_mv, 0); (_add, 4); (_sub, 5); (_and, 8); (_or, 9); (_not, 10); (_cmp, 11)].

(** The diagnostic of [verify_ops]. *)
Definition invalid_operands (s : Assembler) : result Assembler :=
  Exit (line_number s + 1) ("Invalid operands for mnemonic " ++ quoted (mnemonic s)).

(** A computation whose diagnostics name the line after [line_number]. *)
Definition Diag {A} (g : Assembler -> result A) : Prop :=
  forall s n msg, g s = Exit n msg -> n = line_number s + 1.

(** A step that keeps the line number and whose diagnostics name the line
    after it. *)
Definition LN (f : Assembler -> result Assembler) : Prop :=
  (forall s s', f s = Ok s' -> line_number s' = line_number s) /\ Diag f.

(** A step that, outside pass 1, adds nothing or one trailing word: the
    counter advanced by one and two bytes appended. *)
Definition Trail (f : Assembler -> result Assembler) : Prop :=
  forall s s', get_pass_number s <> 1 -> f s = Ok s' ->
    s' = s \/ exists bs, s' = upd s 1 bs /\ length bs = 2%nat.

(** From [s] to [s'] nothing was taken back: the output of [s] is a prefix of
    that of [s'], the location counter did not decrease, the pass number is
    the same, and every symbol of [s] is still bound to the same address. *)
Record grows (s s' : Assembler) : Prop := {
  grows_output : exists bs, output s' = (output s ++ bs)%list;
  grows_address : address s <= address s';
  grows_pass : pass_number s' = pass_number s;
  grows_symbols : symbol_table s ⊆ symbol_table s'
}.

(** A step after which nothing was taken back, in whatever pass. *)
Definition Mono (f : Assembler -> result Assembler) : Prop :=
  forall s s', f s = Ok s' -> grows s s'.

(** Whether [sub] occurs in [s]. *)
Definition occurs (sub s : string) : bool :=
  match PyStr.find_split sub s with
  | Some _ => true
  | None => false
  end.

(** * Properties *)

Arguments String.eqb : simpl never.

(** ** The error monad *)

Lemma bind_ok {A B} (m : result A) (f : A -> result B) (b : B) :
  m ≫= f = Ok b -> exists a, m = Ok a /\ f a = Ok b.
Proof. destruct m as [a| |]; simpl; intros H; try discriminate. eauto. Qed.

Ltac bind_inv H :=
  let a := fresh "v" in
  let Ha := fresh "Hv" in
  apply bind_ok in H; destruct H as (a & Ha & H).

(** ** What statements do outside pass 1

    Outside pass 1 a handler can only advance the location counter and append
    to the output; which advance and which bytes depends on the tokens and on
    the symbol table alone. *)

Lemma upd_0_nil s : upd s 0 [] = s.
Proof. destruct s; unfold upd, set_output, set_address; simpl. f_equal; [lia | apply app_nil_r]. Qed.

Lemma upd_upd s a b a' b' : upd (upd s a b) a' b' = upd s (a + a') (b ++ b').
Proof. destruct s; unfold upd, set_output, set_address; simpl. f_equal; [lia | symmetry; apply app_assoc]. Qed.

Lemma upd_pass s a b : get_pass_number (upd s a b) = get_pass_number s.
Proof. reflexivity. Qed.

Lemma same_view_upd s t a b : same_view s t -> same_view (upd s a b) (upd t a b).
Proof. intros []; constructor; simpl; assumption. Qed.

Lemma same_view_set_address s t a b : same_view s t -> same_view (set_address s a) (set_address t b).
Proof. intros []; constructor; simpl; assumption. Qed.

Lemma Eff_ret : Eff Ok.
Proof.
  intros s s' _ [= <-]. exists 0, []. rewrite upd_0_nil. split; [lia|]. split; [done|].
  intros t _. by rewrite upd_0_nil.
Qed.

Lemma Eff_bind f g : Eff f -> Eff g -> Eff (fun s => s1 ← f s; g s1).
Proof.
  intros Hf Hg s s' Hp H. bind_inv H.
  destruct (Hf _ _ Hp Hv) as (da & bs & Hda & -> & Ht).
  destruct (Hg (upd s da bs) s' Hp H) as (da' & bs' & Hda' & -> & Ht').
  exists (da + da'), (bs ++ bs')%list. rewrite upd_upd. split; [lia|]. split; [done|].
  intros t Hst. rewrite (Ht t Hst). simpl.
  rewrite (Ht' (upd t da bs)), upd_upd; [done|]. by apply same_view_upd.
Qed.

Lemma Eff_bind_pure {A} (g : Assembler -> result A) (k : A -> Assembler -> result Assembler) :
  Pure g -> (forall v, Eff (k v)) -> Eff (fun s => v ← g s; k v s).
Proof.
  intros Hg Hk s s' Hp H. bind_inv H.
  destruct (Hk v _ _ Hp H) as (da & bs & Hda & -> & Ht).
  exists da, bs. split; [lia|]. split; [done|].
  intros t Hst. rewrite (Hg _ _ Hv t Hst). simpl. by apply Ht.
Qed.

Lemma pass_action_pass2 s size bs :
  get_pass_number s <> 1 -> pass_action s size bs = Ok (upd s 0 bs).
Proof.
  intros Hp. unfold pass_action. destruct bs as [|b bs]; [by rewrite upd_0_nil|].
  apply Z.eqb_neq in Hp. rewrite Hp. simpl.
  destruct s; unfold upd, set_output, set_address; simpl. do 2 f_equal. lia.
Qed.

Lemma Eff_pass_action size bs : Eff (fun s => pass_action s size bs).
Proof.
  intros s s' Hp H. rewrite pass_action_pass2 in H by done. injection H as <-.
  exists 0, bs. split; [lia|]. split; [done|].
  intros t Ht. apply pass_action_pass2, Ht.
Qed.
Lemma Pure_ret {A} (r : result A) : Pure (fun _ => r).
Proof. intros s v H t _. exact H. Qed.

Lemma Pure_error {A} (m : Assembler -> string) : Pure (fun s => @write_error A s (m s)).
Proof. intros s v H. discriminate. Qed.

Lemma Pure_if {A} (c : Assembler -> bool) (a b : Assembler -> result A) :
  Tok c -> Pure a -> Pure b -> Pure (fun s => if c s then a s else b s).
Proof.
  intros Hc Ha Hb s v H t Hst. rewrite <- (Hc s t Hst).
  destruct (c s); [by eapply Ha | by eapply Hb].
Qed.

Lemma Pure_bind {A B} (g : Assembler -> result A) (k : A -> Assembler -> result B) :
  Pure g -> (forall v, Pure (k v)) -> Pure (fun s => v ← g s; k v s).
Proof.
  intros Hg Hk s v H t Hst. bind_inv H.
  rewrite (Hg _ _ Hv t Hst). simpl. by eapply Hk.
Qed.

Lemma Pure_arg {A B} (g : Assembler -> B -> result A) (c : Assembler -> B) :
  Tok c -> (forall b, Pure (fun s => g s b)) -> Pure (fun s => g s (c s)).
Proof. intros Hc Hg s v H t Hst. rewrite <- (Hc s t Hst). by eapply (Hg (c s)). Qed.

Lemma Tok_op1 : Tok op1. Proof. intros s t []; done. Qed.
Lemma Tok_op2 : Tok op2. Proof. intros s t []; done. Qed.
Lemma Tok_op1_type : Tok op1_type. Proof. intros s t []; done. Qed.
Lemma Tok_op2_type : Tok op2_type. Proof. intros s t []; done. Qed.
Lemma Tok_label : Tok label. Proof. intros s t []; done. Qed.
Lemma Tok_symbol_table : Tok symbol_table. Proof. intros s t []; done. Qed.

Ltac tok :=
  let s := fresh "s" in let t := fresh "t" in let H := fresh "H" in
  intros s t H;
  rewrite ?(Tok_op1 s t H), ?(Tok_op2 s t H), ?(Tok_op1_type s t H),
    ?(Tok_op2_type s t H), ?(Tok_label s t H), ?(Tok_symbol_table s t H);
  reflexivity.

Lemma Pure_verify_ops (c : Assembler -> bool) :
  Tok c -> Pure (fun s => verify_ops s (c s)).
Proof.
  intros Hc. unfold verify_ops.
  apply (Pure_if (fun s => negb (c s))); [| apply Pure_error | apply Pure_ret].
  intros s t H. by rewrite (Hc s t H).
Qed.

Lemma Pure_register_offset reg : Pure (fun s => register_offset s reg).
Proof.
  intros s v H t _. unfold register_offset in *.
  destruct (index_of _ _); [done | discriminate].
Qed.

Ltac pure_step :=
  first
    [ apply Pure_ret
    | apply Pure_error
    | apply Pure_if; [tok | |]
    | apply Pure_bind; [| intros ?] ].

Lemma Pure_encode_operand_types opcode n : Pure (fun s => encode_operand_types s opcode n).
Proof.
  unfold encode_operand_types.
  apply Pure_bind; [| intros ?].
  - repeat pure_step. apply (Pure_arg register_offset op1); [tok | apply Pure_register_offset].
  - repeat pure_step. apply (Pure_arg register_offset op2); [tok | apply Pure_register_offset].
Qed.

Lemma Pure_to_int_or_get_label op : Pure (fun s => to_int_or_get_label s op).
Proof.
  intros s v H t Hst. unfold to_int_or_get_label, get_label in *.
  rewrite <- (Tok_symbol_table s t Hst).
  destruct (to_int op) as [[n|]| |]; simpl in *; try discriminate;
    repeat case_match; simplify_eq; done.
Qed.

Lemma Eff_if (c : Assembler -> bool) (a b : Assembler -> result Assembler) :
  Tok c -> Eff a -> Eff b -> Eff (fun s => if c s then a s else b s).
Proof.
  intros Hc Ha Hb s s' Hp H.
  destruct (c s) eqn:E.
  - destruct (Ha _ _ Hp H) as (da & bs & ? & ? & Ht). exists da, bs.
    do 2 (split; [done|]). intros t Hst. rewrite <- (Hc s t Hst), E. by apply Ht.
  - destruct (Hb _ _ Hp H) as (da & bs & ? & ? & Ht). exists da, bs.
    do 2 (split; [done|]). intros t Hst. rewrite <- (Hc s t Hst), E. by apply Ht.
Qed.

Lemma Eff_error (m : Assembler -> string) : Eff (fun s => write_error s (m s)).
Proof. intros s s' _ H. discriminate. Qed.

Lemma Eff_emit_opcode opcode : Eff (fun s => emit_opcode s opcode).
Proof.
  unfold emit_opcode. apply Eff_bind_pure; [apply Pure_ret|].
  intros data. apply Eff_pass_action.
Qed.

Lemma Eff_immediate_operand : Eff immediate_operand.
Proof.
  intros s s' Hp H. unfold immediate_operand in *.
  assert (Hp' := Hp). apply Z.eqb_neq in Hp'. rewrite Hp', orb_false_r in H.
  destruct (negb (existsb (String.eqb (op1_type s)) ["imm"; "label"])) eqn:E.
  - injection H as <-. exists 0, []. rewrite upd_0_nil. do 2 (split; [done|]).
    intros t Hst. rewrite <- (Tok_op1_type s t Hst), E. simpl. by rewrite upd_0_nil.
  - bind_inv H. bind_inv H. rewrite pass_action_pass2 in H by done.
    injection H as <-. exists 1, v0. split; [lia|]. split.
    { destruct s; unfold upd, set_output, set_address; simpl.
      rewrite Z.add_0_r. reflexivity. }
    intros t Hst. rewrite <- (Tok_op1_type s t Hst), E.
    destruct Hst as [? ? E1 ? ? ? Hsym Hpt].
    assert (Hpt' := Hpt). apply Z.eqb_neq in Hpt'. rewrite Hpt'. simpl.
    simpl in Hv. rewrite <- E1.
    rewrite (Pure_to_int_or_get_label _ _ _ Hv (set_address t (address t + 1))).
    + simpl. rewrite Hv0. simpl. rewrite pass_action_pass2 by done.
      destruct t; unfold upd, set_output, set_address; simpl.
      rewrite Z.add_0_r. reflexivity.
    + constructor; simpl; done.
Qed.

(** A memory-address operand never gets its trailing word: the value handed
    to [int(number, 16)] is always an [int]. *)
Lemma memory_address_step_fails s op :
  is_ok (memory_address_step s ("mem_adr", op)) = false.
Proof.
  unfold memory_address_step. simpl.
  destruct (to_int_or_get_label s op); reflexivity.
Qed.

Lemma memory_address_fails s :
  get_pass_number s <> 1 ->
  op1_type s = "mem_adr" \/ op2_type s = "mem_adr" ->
  is_ok (memory_address s) = false.
Proof.
  intros Hp Hm. unfold memory_address. apply Z.eqb_neq in Hp. rewrite Hp.
  assert (E : existsb (String.eqb "mem_adr") [op1_type s; op2_type s] = true).
  { simpl. destruct Hm as [-> | ->]; rewrite String.eqb_refl; by rewrite ?orb_true_r. }
  rewrite E. simpl.
  destruct (String.eqb_spec (op1_type s) "mem_adr") as [E1|E1]; simpl.
  - destruct (to_int_or_get_label _ _); reflexivity.
  - destruct Hm as [Hm|Hm]; [done|]. rewrite Hm, String.eqb_refl. simpl.
    destruct (to_int_or_get_label _ _); reflexivity.
Qed.

Lemma Eff_memory_address : Eff memory_address.
Proof.
  intros s s' Hp H.
  destruct (existsb (String.eqb "mem_adr") [op1_type s; op2_type s]) eqn:E.
  - assert (F : is_ok (memory_address s) = false).
    { apply memory_address_fails; [done|]. simpl in E.
      rewrite orb_false_r in E. apply orb_prop in E.
      destruct E as [E|E]; apply String.eqb_eq in E; auto. }
    rewrite H in F. discriminate.
  - unfold memory_address in H. rewrite E, orb_true_r in H. injection H as <-.
    exists 0, []. rewrite upd_0_nil. do 2 (split; [done|]).
    intros t Hst. unfold memory_address.
    rewrite <- (Tok_op1_type s t Hst), <- (Tok_op2_type s t Hst), E, orb_true_r.
    by rewrite upd_0_nil.
Qed.

Ltac eff_step :=
  first
    [ apply Eff_pass_action
    | apply Eff_emit_opcode
    | apply Eff_immediate_operand
    | apply Eff_memory_address
    | apply Eff_error
    | apply Eff_bind
    | apply Eff_bind_pure; [| intros ?] ].

Ltac pure_ops := apply Pure_verify_ops; unfold both, only_first, neither; tok.

Lemma Eff_two_operands opcode :
  Eff (fun self =>
         verify_ops self (both (op1 self) (op2 self)) ;;
         opcode ← encode_operand_types self opcode 2;
         self ← emit_opcode self opcode;
         self ← immediate_operand self;
         memory_address self).
Proof.
  apply Eff_bind_pure; [pure_ops | intros _].
  apply Eff_bind_pure; [apply Pure_encode_operand_types | intros w].
  repeat eff_step.
Qed.

Lemma Eff_mv : Eff _mv.  Proof. apply Eff_two_operands. Qed.
Lemma Eff_add : Eff _add. Proof. apply Eff_two_operands. Qed.
Lemma Eff_sub : Eff _sub. Proof. apply Eff_two_operands. Qed.
Lemma Eff_and : Eff _and. Proof. apply Eff_two_operands. Qed.
Lemma Eff_or : Eff _or.  Proof. apply Eff_two_operands. Qed.
Lemma Eff_not : Eff _not. Proof. apply Eff_two_operands. Qed.
Lemma Eff_cmp : Eff _cmp. Proof. apply Eff_two_operands. Qed.

Lemma Eff_io : Eff _io.
Proof.
  unfold _io.
  apply Eff_bind_pure; [pure_ops | intros _].
  apply Eff_bind_pure; [repeat pure_step | intros _].
  apply Eff_bind_pure; [apply Pure_encode_operand_types | intros w].
  apply Eff_bind_pure; [repeat pure_step | intros w'].
  repeat eff_step.
Qed.

Lemma Eff_push : Eff _push.
Proof.
  unfold _push.
  apply Eff_bind_pure; [pure_ops | intros _].
  apply Eff_bind_pure; [apply Pure_encode_operand_types | intros w].
  repeat eff_step.
Qed.

Lemma Eff_pop : Eff _pop.
Proof.
  unfold _pop.
  apply Eff_bind_pure; [pure_ops | intros _].
  apply Eff_bind_pure; [apply Pure_encode_operand_types | intros w].
  repeat eff_step.
Qed.

Lemma Eff_one_operand_plain opcode :
  Eff (fun self =>
         verify_ops self (only_first (op1 self) (op2 self)) ;;
         opcode ← encode_operand_types self opcode 1;
         emit_opcode self opcode).
Proof.
  apply Eff_bind_pure; [pure_ops | intros _].
  apply Eff_bind_pure; [apply Pure_encode_operand_types | intros w].
  apply Eff_emit_opcode.
Qed.

Lemma Eff_inc : Eff _inc. Proof. apply Eff_one_operand_plain. Qed.
Lemma Eff_dec : Eff _dec. Proof. apply Eff_one_operand_plain. Qed.

Lemma Eff_one_operand_jump opcode :
  Eff (fun self =>
         verify_ops self (only_first (op1 self) (op2 self)) ;;
         opcode ← encode_operand_types self opcode 1;
         self ← emit_opcode self opcode;
         immediate_operand self).
Proof.
  apply Eff_bind_pure; [pure_ops | intros _].
  apply Eff_bind_pure; [apply Pure_encode_operand_types | intros w].
  repeat eff_step.
Qed.

Lemma Eff_call : Eff _call. Proof. apply Eff_one_operand_jump. Qed.
Lemma Eff_jnz : Eff _jnz. Proof. apply Eff_one_operand_jump. Qed.

Lemma Eff_ret_ : Eff _ret.
Proof. unfold _ret. apply Eff_bind_pure; [pure_ops | intros _]. apply Eff_pass_action. Qed.

Lemma Eff_hlt : Eff _hlt.
Proof. unfold _hlt. apply Eff_bind_pure; [pure_ops | intros _]. apply Eff_pass_action. Qed.

Lemma Pure_require_label : Pure require_label.
Proof. unfold require_label. repeat pure_step. Qed.

(** A statement whose bytes are computed from the tokens. *)
Lemma Eff_emit_tok (size : Assembler -> Z) (data : Assembler -> list byte) :
  Tok size -> Tok data -> Eff (fun s => pass_action s (size s) (data s)).
Proof.
  intros Hs Hd s s' Hp H. rewrite pass_action_pass2 in H by done. injection H as <-.
  exists 0, (data s). split; [lia|]. split; [done|].
  intros t Hst. rewrite <- (Hd s t Hst). apply pass_action_pass2, Hst.
Qed.

Lemma Eff_directive_data : Eff directive_data.
Proof.
  unfold directive_data.
  apply Eff_bind_pure; [apply Pure_require_label | intros _].
  apply Eff_bind_pure; [pure_ops | intros _].
  intros s s' Hp H.
  destruct (PyStr.int (op1 s)) as [data|] eqn:E; [|discriminate].
  bind_inv H. rewrite pass_action_pass2 in H by done. injection H as <-.
  exists 0, v. split; [lia|]. split; [done|].
  intros t Hst. rewrite <- (Tok_op1 s t Hst), E. simpl. rewrite Hv. simpl.
  apply pass_action_pass2, Hst.
Qed.

Lemma Eff_directive_string : Eff directive_string.
Proof.
  unfold directive_string.
  apply Eff_bind_pure; [apply Pure_require_label | intros _].
  apply Eff_bind_pure; [pure_ops | intros _].
  apply Eff_emit_tok; tok.
Qed.

Lemma Eff_handlers name handler :
  lookup_handler name handlers = Some handler -> Eff handler.
Proof.
  unfold handlers. simpl.
  repeat (destruct (String.eqb name _);
          [intros [= <-];
           first [apply Eff_mv | apply Eff_io | apply Eff_push | apply Eff_pop
                 | apply Eff_add | apply Eff_sub | apply Eff_inc | apply Eff_dec
                 | apply Eff_and | apply Eff_or | apply Eff_not | apply Eff_cmp
                 | apply Eff_call | apply Eff_jnz | apply Eff_ret_ | apply Eff_hlt
                 | apply Eff_directive_data | apply Eff_directive_string
                 | (intros ? ? ? ?; discriminate)] |]).
  discriminate.
Qed.

Lemma Eff_process : Eff process.
Proof.
  intros s s' Hp H. unfold process in H.
  destruct (negb (PyStr.truthy (mnemonic s)) && negb (both (op1 s) (op2 s))) eqn:E.
  - injection H as <-. exists 0, []. rewrite upd_0_nil. do 2 (split; [done|]).
    intros t Hst. unfold process.
    destruct Hst as [? <- <- <- ? ? ? ?]. rewrite E. by rewrite upd_0_nil.
  - destruct (lookup_handler _ handlers) as [handler|] eqn:L.
    + destruct (Eff_handlers _ _ L _ _ Hp H) as (da & bs & ? & ? & Ht).
      exists da, bs. do 2 (split; [done|]).
      intros t Hst. unfold process. rewrite <- (sv_mnemonic _ _ Hst),
        <- (sv_op1 _ _ Hst), <- (sv_op2 _ _ Hst), E, L. by apply Ht.
    + destruct (lookup_special _ special_attributes) as [[|e]|] eqn:L';
        [|discriminate|discriminate].
      injection H as <-. exists 0, []. rewrite upd_0_nil. do 2 (split; [done|]).
      intros t Hst. unfold process. rewrite <- (sv_mnemonic _ _ Hst),
        <- (sv_op1 _ _ Hst), <- (sv_op2 _ _ Hst), E, L, L'. by rewrite upd_0_nil.
Qed.

(** The dispatch on a name that is no mnemonic: [_x] names no attribute of
    the object and is reported; [_hash__] names a method that can be called
    without an argument, so the line is accepted and adds nothing; [_doc__]
    names an attribute that cannot be called. *)
Lemma process_other_names :
  _assemble_line (begin_pass fresh) "_x"
  = Exit 1 ("Unrecognized mnemonic " ++ quoted "_x") /\
  _assemble_line (begin_pass fresh) "_hash__"
  = Ok (set_line_number (from_ok (parse "_hash__" (begin_pass fresh))) 1) /\
  output (from_ok (assemble ["_hash__"; "hlt"] fresh)) = [x00; xf0] /\
  _assemble_line (begin_pass fresh) "_doc__" = Raise TypeError /\
  _assemble_line (begin_pass fresh) "_init__" = Raise RecursionError.
Proof. vm_compute. repeat split. Qed.

(** ** The tokenizer touches the tokens only *)

Lemma parse_directive_indep s t line v :
  parse_directive s line = Ok v -> parse_directive t line = Ok v.
Proof.
  unfold parse_directive.
  destruct (PyStr.partition line ".data") as [[left1 sep1] right1].
  destruct (if negb (PyStr.truthy sep1) then _ else _) as [[[left1' sep1'] right1'] d_type].
  destruct (negb (PyStr.truthy sep1')); [done|].
  destruct (PyStr.partition left1' ":") as [[left2 sep2] right2].
  destruct (String.eqb sep2 ":"); simpl.
  - destruct (negb _ || _); simpl; [discriminate | done].
  - destruct (negb _); simpl; [discriminate | done].
Qed.

Lemma parse_retoken line s s' t :
  parse line s = Ok s' -> s' = retoken s s' /\ parse line t = Ok (retoken t s').
Proof.
  unfold parse.
  destruct (PyStr.rpartition _ ";") as [[comment_left comment_separator] comment_right].
  destruct (parse_directive s _) as [[[d_label directive] d_args]| |] eqn:D;
    simpl; try discriminate.
  rewrite (parse_directive_indep _ t _ _ D). simpl.
  destruct (PyStr.rpartition _ ",") as [[op2_left op2_separator] op2_right].
  destruct (PyStr.rpartition _ (String _ _)) as [[op1_left_t op1_separator_t] op1_right_t].
  destruct (PyStr.rpartition _ " ") as [[op1_left_s op1_separator_s] op1_right_s].
  destruct (PyStr.rpartition _ ":") as [[mnemonic_left mnemonic_separator] mnemonic_right].
  repeat match goal with
         | |- context [match ?e with (_, _) => _ end] => destruct e as [[? ?] ?]
         end.
  intros [= <-]. split; reflexivity.
Qed.

(** ** One line, one traversal *)

Lemma advances_upd s da bs : advances s (upd s da bs) da bs.
Proof. constructor; reflexivity. Qed.

Lemma assemble_line_repeatable line s s' :
  get_pass_number s <> 1 ->
  _assemble_line s line = Ok s' ->
  repeatable (fun t => _assemble_line t line) s s'.
Proof.
  intros Hp H. unfold _assemble_line in H.
  bind_inv H. rename v into s1. bind_inv H. rename v into s2. injection H as <-.
  destruct (parse_retoken _ _ _ s Hv) as [Hs1 _].
  assert (Hp1 : get_pass_number s1 <> 1) by (rewrite Hs1; exact Hp).
  destruct (Eff_process _ _ Hp1 Hv0) as (da & bs & Hda & -> & Ht).
  exists da, bs. split; [done|]. split.
  { rewrite Hs1. constructor; reflexivity. }
  intros t Hsym Hpt.
  destruct (parse_retoken _ _ _ t Hv) as [_ Hparse].
  exists (set_line_number (upd (retoken t s1) da bs) (line_number (upd (retoken t s1) da bs) + 1)).
  split.
  - unfold _assemble_line. rewrite Hparse. simpl.
    rewrite (Ht (retoken t s1)); [reflexivity|].
    constructor; simpl; try reflexivity; [|exact Hpt].
    rewrite Hs1. simpl. congruence.
  - constructor; reflexivity.
Qed.

Lemma advances_trans s1 s2 s3 da bs da' bs' :
  advances s1 s2 da bs -> advances s2 s3 da' bs' ->
  advances s1 s3 (da + da') (bs ++ bs')%list.
Proof.
  intros [A1 O1 P1 S1] [A2 O2 P2 S2]. constructor.
  - rewrite A2, A1. lia.
  - rewrite O2, O1. symmetry. apply app_assoc.
  - congruence.
  - congruence.
Qed.

Lemma advances_pass s s' da bs :
  advances s s' da bs -> get_pass_number s' = get_pass_number s.
Proof. intros [_ _ P _]. unfold get_pass_number. by rewrite P. Qed.

Lemma traversal_repeatable lines : forall s s',
  get_pass_number s <> 1 ->
  for_each _assemble_line lines s = Ok s' ->
  repeatable (for_each _assemble_line lines) s s'.
Proof.
  induction lines as [|line lines IH]; intros s s' Hp H; simpl in H.
  - injection H as <-. exists 0, []. split; [lia|]. split.
    { constructor; [lia | by rewrite app_nil_r | done | done]. }
    intros t _ _. exists t. split; [done|].
    constructor; [lia | by rewrite app_nil_r | done | done].
  - bind_inv H. rename v into s1.
    destruct (assemble_line_repeatable _ _ _ Hp Hv) as (da & bs & Hda & Adv & Ht).
    assert (Hp1 : get_pass_number s1 <> 1) by (by rewrite (advances_pass _ _ _ _ Adv)).
    destruct (IH _ _ Hp1 H) as (da' & bs' & Hda' & Adv' & Ht').
    exists (da + da'), (bs ++ bs')%list. split; [lia|].
    split; [by eapply advances_trans|].
    intros t Hsym Hpt.
    destruct (Ht t Hsym Hpt) as (t1 & Ht1 & Adv1).
    destruct (Ht' t1) as (t2 & Ht2 & Adv2).
    { rewrite (adv_symbols _ _ _ _ Adv1), (adv_symbols _ _ _ _ Adv). exact Hsym. }
    { by rewrite (advances_pass _ _ _ _ Adv1). }
    exists t2. split; [|by eapply advances_trans].
    simpl. rewrite Ht1. exact Ht2.
Qed.

(** [assemble] never sets the pass number to 1. *)
Lemma hasattr_pass_number_true self : hasattr_pass_number self = true.
Proof. unfold hasattr_pass_number. by destruct (pass_number self). Qed.

Lemma begin_pass_number self :
  get_pass_number (begin_pass self) = get_pass_number self + 1.
Proof. unfold begin_pass. by rewrite hasattr_pass_number_true. Qed.

(** * The claims *)

Lemma trace_in_pass n lines : forall s,
  n <> 1 -> in_pass_without_symbols n s = true ->
  forallb (in_pass_without_symbols n) (trace lines s) = true.
Proof.
  induction lines as [|line lines IH]; intros s Hn Hs; simpl.
  - by rewrite Hs.
  - rewrite Hs. simpl.
    destruct (_assemble_line s line) as [s'| |] eqn:E; [|done|done].
    apply IH; [done|].
    unfold in_pass_without_symbols in *.
    apply andb_prop in Hs. destruct Hs as [Hp He].
    apply Z.eqb_eq in Hp. apply bool_decide_eq_true in He.
    destruct (assemble_line_repeatable line s s') as (da & bs & _ & Adv & _);
      [congruence | done |].
    rewrite (advances_pass _ _ _ _ Adv), Hp, Z.eqb_refl. simpl.
    apply bool_decide_eq_true. by rewrite (adv_symbols _ _ _ _ Adv).
Qed.

Lemma assemble_first_pass lines s1 :
  assemble lines fresh = Ok s1 ->
  get_pass_number s1 = 2 /\ symbol_table s1 = ∅ /\ 0 <= address s1 /\
  forall t, symbol_table t = ∅ -> get_pass_number t <> 1 ->
    exists t', for_each _assemble_line lines t = Ok t' /\
               address t' = address t + address s1.
Proof.
  unfold assemble. intros H.
  destruct (traversal_repeatable lines (begin_pass fresh) s1) as (da & bs & Hda & Adv & Ht);
    [by vm_compute | done |].
  assert (Ha : address s1 = da) by (rewrite (adv_address _ _ _ _ Adv); reflexivity).
  split; [by rewrite (advances_pass _ _ _ _ Adv)|].
  split; [by rewrite (adv_symbols _ _ _ _ Adv)|].
  split; [lia|].
  intros t Hsym Hpt. destruct (Ht t) as (t' & Ht' & Adv'); [done | done |].
  exists t'. split; [done|]. rewrite (adv_address _ _ _ _ Adv'). lia.
Qed.

(** C9: in every run the first call of [assemble] already runs with
    [pass_number] 2, since the class attribute makes the [hasattr] guard true
    for every object and the number is incremented before the traversal; the
    second call runs with 3.  Every state in which a line of either traversal
    starts, and the state each traversal ends in, has a pass number other
    than 1 and an empty symbol table, so the pass-1 branch of [pass_action]
    is never taken. *)
Theorem C9_first_traversal_runs_as_pass_2 (lines : list string) :
  (forall self, hasattr_pass_number self = true) /\
  get_pass_number fresh = 1 /\
  get_pass_number (begin_pass fresh) = 2 /\
  forallb (in_pass_without_symbols 2) (trace lines (begin_pass fresh)) = true /\
  match assemble lines fresh with
  | Ok s1 =>
      in_pass_without_symbols 2 s1 = true /\
      get_pass_number (begin_pass s1) = 3 /\
      forallb (in_pass_without_symbols 3) (trace lines (begin_pass s1)) = true
  | _ => True
  end.
Proof.
  split; [apply hasattr_pass_number_true|].
  split; [reflexivity|]. split; [reflexivity|].
  split; [by apply trace_in_pass|].
  destruct (assemble lines fresh) as [s1| |] eqn:E; [|done|done].
  destruct (assemble_first_pass _ _ E) as (Hp & Hs & _).
  assert (H3 : get_pass_number (begin_pass s1) = 3) by (rewrite begin_pass_number; lia).
  split.
  { unfold in_pass_without_symbols. rewrite Hp. simpl. by apply bool_decide_eq_true. }
  split; [done|].
  apply trace_in_pass; [done|].
  unfold in_pass_without_symbols. rewrite H3. simpl. by apply bool_decide_eq_true.
Qed.

(** C1: the output image is not produced in pass 2 only.  For the one-line
    program [hlt] the first traversal already leaves the two bytes of the
    instruction in the output and does not advance the location counter; and
    [pass_action] appends its bytes even for an object whose pass number
    is 1. *)
Theorem C1_first_traversal_emits_bytes :
  let s1 := from_ok (assemble ["hlt"] fresh) in
  assemble ["hlt"] fresh = Ok s1 /\
  get_pass_number s1 = 2 /\
  output s1 = [x00; xf0] /\
  address s1 = 0 /\
  output (from_ok (pass_action (set_pass_number fresh 1) 2 [x00; xf0])) = [x00; xf0].
Proof. vm_compute. repeat split. Qed.


(** What pass 1 would do with a labelled statement, were the pass number
    ever 1: bind the lower-cased label to the origin plus the counter, and
    stop on a label that is already bound. *)
Lemma pass_action_pass1_binds s size b bs :
  get_pass_number s = 1 ->
  label s <> "" ->
  symbol_table s !! PyStr.lower (label s) = None ->
  exists s', pass_action s size (b :: bs) = Ok s' /\
    symbol_table s' = <[PyStr.lower (label s) := ORIGIN + address s]> (symbol_table s).
Proof.
  intros Hp Hl Hn. unfold pass_action. rewrite Hp. simpl.
  destruct (label s) eqn:E; [done|]. simpl. unfold add_label. rewrite E, Hn.
  rewrite bool_decide_eq_false_2 by (intros [? ?]; discriminate). simpl.
  eexists. split; [reflexivity|]. simpl. by rewrite Z.add_comm.
Qed.

Lemma pass_action_pass1_duplicate s size b bs v :
  get_pass_number s = 1 ->
  label s <> "" ->
  symbol_table s !! PyStr.lower (label s) = Some v ->
  pass_action s size (b :: bs) =
    Exit (line_number s + 1) ("Duplicate label: " ++ quoted (label s)).
Proof.
  intros Hp Hl Hn. unfold pass_action. rewrite Hp. simpl.
  destruct (label s) eqn:E; [done|]. simpl. unfold add_label. rewrite E, Hn.
  rewrite bool_decide_eq_true_2 by eauto. reflexivity.
Qed.

(** C3: no label is ever bound and a repeated label goes unnoticed.  The
    program that defines [foo] twice runs through both traversals, the symbol
    table is empty after each, and the four data bytes are in the output
    twice. *)
Theorem C3_duplicate_label_goes_unnoticed :
  let lines := ["foo: .data 1"; "foo: .data 2"] in
  let s1 := from_ok (assemble lines fresh) in
  let s2 := from_ok (two_passes lines) in
  assemble lines fresh = Ok s1 /\
  two_passes lines = Ok s2 /\
  symbol_table s1 = ∅ /\
  symbol_table s2 = ∅ /\
  label s2 = "foo" /\
  output s2 = [x01; x00; x02; x00; x01; x00; x02; x00].
Proof. vm_compute. repeat split. Qed.

Ltac eval_eqb :=
  repeat match goal with
         | |- context [String.eqb ?a ?b] =>
             let r := eval vm_compute in (String.eqb a b) in
             change (String.eqb a b) with r
         end.

Lemma fields_of_word opcode f :
  0 <= opcode < 16 -> f = 0 \/ f = 14 \/ f = 15 ->
  fields (Z.shiftl opcode 12 + Z.shiftl f 4) = (opcode, 0, f, 0).
Proof.
  intros Hop Hf.
  assert (E : opcode = 0 \/ opcode = 1 \/ opcode = 2 \/ opcode = 3 \/ opcode = 4
              \/ opcode = 5 \/ opcode = 6 \/ opcode = 7 \/ opcode = 8 \/ opcode = 9
              \/ opcode = 10 \/ opcode = 11 \/ opcode = 12 \/ opcode = 13
              \/ opcode = 14 \/ opcode = 15) by lia.
  destruct Hf as [-> | [-> | ->]];
    repeat (destruct E as [-> | E]; [reflexivity|]); subst; reflexivity.
Qed.

(** C4, as stated, fails: for [push #5] the operand is an Immediate, the
    opcode word is 0x20E0 (emitted as E0 20), and its bits 11-8 are 0, not
    0xE.  (Where the field is follows the lemmas on the opcode word.) *)
Lemma C4_immediate_not_in_bits_11_to_8 :
  let s := from_ok (parse "push #5" fresh) in
  parse "push #5" fresh = Ok s /\
  op1_type s = "imm" /\
  encode_operand_types s 2 1 = Ok 0x20E0 /\
  output (from_ok (assemble ["push #5"] fresh)) = [xe0; x20; x05; x00] /\
  nibble 2 0x20E0 = 0 /\
  nibble 2 0x20E0 <> 0xE.
Proof. vm_compute. repeat split; discriminate. Qed.

(** C5, as stated, fails: [mv a, #5] does not assemble.  Operand 2 is an
    Immediate, for which the second [match] has only the error case. *)
Lemma C5_mv_register_immediate_is_rejected :
  assemble ["mv a, #5"] fresh = Exit 1 ("Invalid operand " ++ quoted "5") /\
  is_ok (assemble ["mv a, #5"] fresh) = false.
Proof. vm_compute. split; reflexivity. Qed.

(** C5, amended: in whatever state the line is read, [mv a, #5] stops the
    run with the diagnostic [Invalid operand "5"] for that line and no opcode
    word is produced; written source first, [mv #5, a] assembles to the
    opcode word 0x0000 followed by the trailing word 5. *)
Theorem C5_mv_takes_the_immediate_first (self : Assembler) :
  _assemble_line self "mv a, #5"
    = Exit (line_number self + 1) ("Invalid operand " ++ quoted "5") /\
  output (from_ok (assemble ["mv #5, a"] fresh)) = [x00; x00; x05; x00] /\
  is_ok (assemble ["mv #5, a"] fresh) = true.
Proof.
  split; [|split; vm_compute; reflexivity].
  destruct self. vm_compute. reflexivity.
Qed.

(** C6: no trailing word is ever appended for a MemoryAddress operand.  The
    step of [memory_address] for such an operand fails in every state, and
    the program [push [1234]] ends in a [TypeError] after the opcode word
    instead of emitting the word 0x1234. *)
Theorem C6_memory_address_word_is_never_emitted :
  assemble ["push [1234]"] fresh = Raise TypeError /\
  (forall s op, is_ok (memory_address_step s ("mem_adr", op)) = false) /\
  (forall s, get_pass_number s <> 1 ->
             op1_type s = "mem_adr" \/ op2_type s = "mem_adr" ->
             is_ok (memory_address s) = false).
Proof.
  split; [vm_compute; reflexivity|].
  split; [apply memory_address_step_fails | apply memory_address_fails].
Qed.

(** C7: the literal zero is not treated as a literal.  [to_int] reads the
    token 0 as the integer 0, yet [push #0] stops with the undefined-label
    diagnostic, while [push #7] emits the opcode word and the word 7. *)
Theorem C7_literal_zero_is_looked_up_as_a_label :
  to_int "0" = Ok (Some 0) /\
  assemble ["push #0"] fresh = Exit 1 ("Undefined label " ++ quoted "0") /\
  output (from_ok (assemble ["push #7"] fresh)) = [xe0; x20; x07; x00] /\
  assemble ["jnz loop"] fresh = Exit 1 ("Undefined label " ++ quoted "loop").
Proof. vm_compute. repeat split. Qed.

(** C10: outside pass 1, an Immediate operand whose text is exactly 0 emits
    no zero word.  [to_int] returns the integer 0, which counts as false, so
    the symbol table is consulted; it has no entry 0 (it never has any
    entry), and the run stops with the undefined-label diagnostic. *)
Theorem C10_immediate_zero_is_an_undefined_label
    (self : Assembler)
    (Hkind : op1_type self = "imm")
    (Htext : op1 self = "0")
    (Hpass : get_pass_number self <> 1)
    (Hsym : symbol_table self !! "0" = None) :
  to_int (op1 self) = Ok (Some 0) /\
  immediate_operand self
    = Exit (line_number self + 1) ("Undefined label " ++ quoted "0").
Proof.
  rewrite Htext. split; [reflexivity|].
  unfold immediate_operand. rewrite Hkind.
  apply Z.eqb_neq in Hpass. rewrite Hpass.
  cbv [existsb]. eval_eqb. cbn [negb orb op1 set_address].
  rewrite Htext. unfold to_int_or_get_label.
  change (to_int "0") with (@Ok (option Z) (Some 0)).
  cbn [mbind result_bind Z.eqb]. 
  unfold get_label. cbn [symbol_table set_address line_number write_error].
  change (PyStr.lower "0") with "0". rewrite Hsym.
  rewrite bool_decide_eq_false_2 by (intros [? ?]; discriminate).
  reflexivity.
Qed.

Lemma C10_immediate_zero_witness :
  let self := from_ok (parse "push #0" (begin_pass fresh)) in
  to_int (op1 self) = Ok (Some 0) /\
  immediate_operand self
    = Exit (line_number self + 1) ("Undefined label " ++ quoted "0").
Proof.
  cbv zeta.
  apply (C10_immediate_zero_is_an_undefined_label
           (from_ok (parse "push #0" (begin_pass fresh)))).
  - vm_compute. reflexivity.
  - vm_compute. reflexivity.
  - vm_compute. discriminate.
  - vm_compute. reflexivity.
Defined.

(** ** Lower-cased text *)

Lemma lower_char_idem c : PyStr.lower_char (PyStr.lower_char c) = PyStr.lower_char c.
Proof. destruct c as [[] [] [] [] [] [] [] []]; reflexivity. Qed.

Lemma lower_idem s : PyStr.lower (PyStr.lower s) = PyStr.lower s.
Proof. induction s as [|c s IH]; simpl; [done|]. by rewrite lower_char_idem, IH. Qed.

Lemma lowered_lstrip_by p s :
  PyStr.lower s = s -> PyStr.lower (PyStr.lstrip_by p s) = PyStr.lstrip_by p s.
Proof.
  induction s as [|c s IH]; simpl; [done|]. intros [= Hc Hs].
  destruct (p c); [by apply IH|]. simpl. by rewrite Hc, Hs.
Qed.

Lemma lowered_rstrip_by p s :
  PyStr.lower s = s -> PyStr.lower (PyStr.rstrip_by p s) = PyStr.rstrip_by p s.
Proof.
  induction s as [|c s IH]; simpl; [done|]. intros [= Hc Hs].
  specialize (IH Hs). destruct (PyStr.rstrip_by p s) as [|d r].
  - destruct (p c); simpl; [done | by rewrite Hc].
  - change (PyStr.lower (String c (String d r))) with
      (String (PyStr.lower_char c) (PyStr.lower (String d r))).
    by rewrite Hc, IH.
Qed.

Lemma lowered_strip_chars chars s :
  PyStr.lower s = s -> PyStr.lower (PyStr.strip_chars chars s) = PyStr.strip_chars chars s.
Proof. intros H. unfold PyStr.strip_chars. by apply lowered_rstrip_by, lowered_lstrip_by. Qed.

Lemma lowered_translate_delete codes s :
  PyStr.lower s = s ->
  PyStr.lower (PyStr.translate (PyStr.delete_codes codes) s)
  = PyStr.translate (PyStr.delete_codes codes) s.
Proof.
  induction s as [|c s IH]; simpl; [done|]. intros [= Hc Hs].
  destruct (PyStr.delete_codes codes c) as [d|] eqn:E; [|by apply IH].
  unfold PyStr.delete_codes in E. destruct (existsb _ codes); [discriminate|].
  injection E as <-. simpl. by rewrite Hc, IH.
Qed.

Lemma lowered_classify regs op key :
  PyStr.lower op = op -> PyStr.lower (classify regs op key).2 = (classify regs op key).2.
Proof.
  intros H. unfold classify.
  repeat case_match; simpl; try done; by apply lowered_translate_delete.
Qed.

(** The tokenizer stores operand 1 in lower case. *)
Lemma parse_lowers_op1 line s s' :
  parse line s = Ok s' -> PyStr.lower (op1 s') = op1 s'.
Proof.
  unfold parse.
  destruct (PyStr.rpartition _ ";") as [[comment_left comment_separator] comment_right].
  destruct (parse_directive s _) as [[[d_label directive] d_args]| |] eqn:D;
    simpl; try discriminate.
  destruct (PyStr.rpartition _ ",") as [[op2_left op2_separator] op2_right].
  destruct (PyStr.rpartition _ (String _ _)) as [[op1_left_t op1_separator_t] op1_right_t].
  destruct (PyStr.rpartition _ " ") as [[op1_left_s op1_separator_s] op1_right_s].
  destruct (PyStr.rpartition _ ":") as [[mnemonic_left mnemonic_separator] mnemonic_right].
  match goal with
  | |- context [PyStr.truthy (PyStr.lower ?x)] => set (raw := x)
  end.
  destruct (PyStr.truthy (PyStr.lower raw)).
  - pose proof (lowered_classify (take 4 registers) _ (PyStr.lower raw) (lower_idem raw)) as L.
    destruct (classify _ _ _) as [kind text]. simpl in L.
    repeat match goal with
           | |- context [match ?e with (_, _) => _ end] => destruct e as [[? ?] ?]
           end.
    intros [= <-]. exact L.
  - pose proof (lower_idem raw) as L.
    repeat match goal with
           | |- context [match ?e with (_, _) => _ end] => destruct e as [[? ?] ?]
           end.
    intros [= <-]. exact L.
Qed.

(** ** The [.string] directive *)

Lemma is_ascii_app a b :
  PyStr.is_ascii (a ++ b) = PyStr.is_ascii a && PyStr.is_ascii b.
Proof.
  unfold PyStr.is_ascii. induction a as [|c a IH]; simpl; [done|].
  by rewrite IH, andb_assoc.
Qed.

Lemma utf8_length_ascii s :
  PyStr.is_ascii s = true -> length (PyStr.utf8 s) = String.length s.
Proof.
  unfold PyStr.is_ascii. induction s as [|c s IH]; simpl; [done|].
  intros H. apply andb_prop in H. destruct H as [Hc Hs].
  unfold PyStr.utf8_char. rewrite Hc. simpl. by rewrite IH.
Qed.

Lemma string_length_app a b :
  String.length (a ++ b) = (String.length a + String.length b)%nat.
Proof. induction a as [|c a IH]; simpl; [done|]. by rewrite IH. Qed.

Lemma nul_padded_even content :
  Z.even (Z.of_nat (String.length (nul_padded content))) = true.
Proof.
  unfold nul_padded. destruct (Z.odd _) eqn:E; rewrite !string_length_app; simpl.
  - rewrite Nat2Z.inj_add, Z.even_add, <- Z.negb_odd, E. reflexivity.
  - rewrite Nat2Z.inj_add, Z.even_add, <- Z.negb_odd, E. reflexivity.
Qed.

Lemma directive_string_emits s :
  label s <> "" -> op1 s <> "" -> op2 s = "" -> get_pass_number s <> 1 ->
  directive_string s = Ok (upd s 0 (PyStr.utf8 (nul_padded (string_content (op1 s))))).
Proof.
  intros Hl H1 H2 Hp. unfold directive_string, require_label, verify_ops, only_first.
  apply String.eqb_neq in Hl. rewrite Hl, H2.
  destruct (op1 s) as [|c op] eqn:E; [done|]. cbn [PyStr.truthy PyStr.nonempty negb andb mbind result_bind].
  rewrite pass_action_pass2 by done. do 3 f_equal.
  unfold nul_padded, string_content.
  rewrite (Zmod_odd (Z.of_nat _)). by destruct (Z.odd _).
Qed.

Lemma process_string_directive s :
  mnemonic s = ".string" -> process s = directive_string s.
Proof. intros H. unfold process. rewrite H. reflexivity. Qed.

(** C8, as stated, fails: the argument is lower-cased before it is emitted,
    so [.string "AB"] emits the bytes of [ab] and two NULs, not those of
    [AB]. *)
Lemma C8_string_argument_is_lower_cased :
  let s := from_ok (assemble [string_line "AB"] fresh) in
  assemble [string_line "AB"] fresh = Ok s /\
  output s = [x61; x62; x00; x00] /\
  output s <> [x41; x42; x00; x00].
Proof. vm_compute. repeat split; discriminate. Qed.

(** C8, amended: whenever the tokenizer reads a line as the statement
    [.string] with a label, a non-empty operand 1 and no operand 2, outside
    pass 1 the directive works on operand 1 as the tokenizer stored it, which
    is in lower case.  All leading and trailing double quotes, then all
    leading and trailing single quotes, are stripped from it; one NUL is
    appended if the length of what remains is odd and two if it is even; and
    the UTF-8 bytes of the result are appended to the output, the location
    counter staying where it was.  The number of characters emitted is even,
    and so is the number of bytes when the content is ASCII.  So the line
    [msg: .string "AB"] emits the bytes of [ab] and two NULs, and
    [msg: .string "ABC"] those of [abc] and one NUL. *)
Theorem C8_string_directive_pads_to_even_length
    (line : string) (self s : Assembler)
    (Hparse : parse line self = Ok s)
    (Hmnemonic : mnemonic s = ".string")
    (Hlabel : label s <> "")
    (Hop1 : op1 s <> "")
    (Hop2 : op2 s = "")
    (Hpass : get_pass_number self <> 1) :
  let content := string_content (op1 s) in
  PyStr.lower content = content /\
  process s = Ok (upd s 0 (PyStr.utf8 (nul_padded content))) /\
  Z.even (Z.of_nat (String.length (nul_padded content))) = true /\
  (PyStr.is_ascii content = true ->
   Z.even (Z.of_nat (length (PyStr.utf8 (nul_padded content)))) = true) /\
  output (from_ok (assemble [string_line "AB"] fresh)) = [x61; x62; x00; x00] /\
  output (from_ok (assemble [string_line "ABC"] fresh)) = [x61; x62; x63; x00].
Proof.
  cbv zeta.
  split.
  { unfold string_content. do 2 apply lowered_strip_chars. by eapply parse_lowers_op1. }
  split.
  { rewrite process_string_directive by done. apply directive_string_emits; try done.
    destruct (parse_retoken _ _ _ self Hparse) as [-> _]. exact Hpass. }
  split; [apply nul_padded_even|].
  split; [|split; vm_compute; reflexivity].
  intros Hascii. rewrite utf8_length_ascii; [apply nul_padded_even|].
  unfold nul_padded. destruct (Z.odd _); rewrite !is_ascii_app, Hascii; reflexivity.
Qed.

Lemma C8_string_directive_witness :
  let s := from_ok (parse (string_line "AB") (begin_pass fresh)) in
  let content := string_content (op1 s) in
  PyStr.lower content = content /\
  process s = Ok (upd s 0 (PyStr.utf8 (nul_padded content))) /\
  Z.even (Z.of_nat (String.length (nul_padded content))) = true /\
  (PyStr.is_ascii content = true ->
   Z.even (Z.of_nat (length (PyStr.utf8 (nul_padded content)))) = true) /\
  output (from_ok (assemble [string_line "AB"] fresh)) = [x61; x62; x00; x00] /\
  output (from_ok (assemble [string_line "ABC"] fresh)) = [x61; x62; x63; x00].
Proof.
  cbv zeta.
  apply (C8_string_directive_pads_to_even_length
           (string_line "AB") (begin_pass fresh)
           (from_ok (parse (string_line "AB") (begin_pass fresh)))).
  - vm_compute. reflexivity.
  - vm_compute. reflexivity.
  - vm_compute. discriminate.
  - vm_compute. discriminate.
  - vm_compute. reflexivity.
  - vm_compute. discriminate.
Defined.

(** Lines the tokenizer reads otherwise: an argument with a space is split
    at the space and its first part ends up in the mnemonic, which is then
    not recognized; an argument that starts with [#] is stored as an
    Immediate, without the [#]. *)
Lemma string_directive_other_readings :
  assemble [string_line "hello world"] fresh
  = Exit 1 ("Unrecognized mnemonic " ++ quoted (".string " ++ dq ++ "hello")) /\
  output (from_ok (assemble ["msg: .string #hello"] fresh))
  = [x68; x65; x6c; x6c; x6f; x00].
Proof. vm_compute. split; reflexivity. Qed.

(** Outside ASCII the byte count can be odd: a content of the single letter
    U+00E9 is padded with one NUL and emitted as three bytes. *)
Lemma string_directive_odd_byte_count :
  output (from_ok (assemble [string_line (String (ascii_of_nat 233) EmptyString)] fresh))
  = [xc3; xa9; x00].
Proof. vm_compute. reflexivity. Qed.

(** * Further properties of the assembler *)

(** ** Words and bytes *)

Lemma byte_val_of_Z n : 0 <= n < 256 -> byte_val (PyStr.byte_of_Z n) = n.
Proof.
  intros H. unfold byte_val, PyStr.byte_of_Z.
  rewrite ascii_of_byte_of_ascii, N_ascii_embedding; lia.
Qed.

Lemma from_bytes_word n :
  0 <= n < 65536 -> from_bytes_unsigned (word_bytes n) = n.
Proof.
  intros H. unfold word_bytes. simpl.
  change 255 with (Z.ones 8). rewrite !Z.land_ones by lia.
  rewrite Z.shiftr_div_pow2 by lia. change (2 ^ 8) with 256.
  rewrite !byte_val_of_Z by (apply Z.mod_pos_bound; lia).
  rewrite (Z.mod_small (n / 256) 256) by (split; [apply Z.div_pos; lia | apply Z.div_lt_upper_bound; lia]).
  pose proof (Z.div_mod n 256). lia.
Qed.

Lemma to_bytes_cases (n : Z) :
  (0 <= n < 65536 ->
   exists bs, to_bytes_unsigned n = Ok bs /\ length bs = 2%nat
              /\ from_bytes_unsigned bs = n) /\
  (-32768 <= n < 32768 ->
   exists bs, to_bytes_signed n = Ok bs /\ length bs = 2%nat
              /\ from_bytes_signed bs = n) /\
  (~ 0 <= n < 65536 -> to_bytes_unsigned n = Raise OverflowError) /\
  (~ -32768 <= n < 32768 -> to_bytes_signed n = Raise OverflowError).
Proof.
  repeat split.
  - intros H. exists (word_bytes n). unfold to_bytes_unsigned.
    destruct (Z.leb_spec 0 n), (Z.ltb_spec n 65536); try lia.
    repeat split. by apply from_bytes_word.
  - intros H. exists (word_bytes (n mod 65536)). unfold to_bytes_signed.
    destruct (Z.leb_spec (-32768) n), (Z.ltb_spec n 32768); try lia.
    repeat split. unfold from_bytes_signed.
    rewrite from_bytes_word by (apply Z.mod_pos_bound; lia).
    destruct (Z.ltb_spec (n mod 65536) 32768) as [L|L].
    + destruct (Z.lt_ge_cases n 0) as [Hn|Hn].
      * rewrite <- (Z.mod_add n 1 65536) in L by lia. rewrite Z.mod_small in L; lia.
      * rewrite Z.mod_small; lia.
    + destruct (Z.lt_ge_cases n 0) as [Hn|Hn].
      * rewrite <- (Z.mod_add n 1 65536) by lia. rewrite Z.mod_small; lia.
      * rewrite Z.mod_small in L; lia.
  - intros H. unfold to_bytes_unsigned.
    destruct (Z.leb_spec 0 n), (Z.ltb_spec n 65536); try reflexivity; lia.
  - intros H. unfold to_bytes_signed.
    destruct (Z.leb_spec (-32768) n), (Z.ltb_spec n 32768); try reflexivity; lia.
Qed.

(** X1: [to_bytes] and [from_bytes] are inverse on 16-bit words.  An
    unsigned word is accepted exactly in 0..65535 and a signed one exactly
    in -32768..32767; an accepted value is written as two bytes, low byte
    first, from which it is read back; any other value is an
    [OverflowError]. *)
Theorem X1_to_bytes_round_trip (n : Z) :
  (0 <= n < 65536 ->
   exists bs, to_bytes_unsigned n = Ok bs /\ length bs = 2%nat
              /\ from_bytes_unsigned bs = n) /\
  (-32768 <= n < 32768 ->
   exists bs, to_bytes_signed n = Ok bs /\ length bs = 2%nat
              /\ from_bytes_signed bs = n) /\
  (~ 0 <= n < 65536 -> to_bytes_unsigned n = Raise OverflowError) /\
  (~ -32768 <= n < 32768 -> to_bytes_signed n = Raise OverflowError).
Proof. exact (to_bytes_cases n). Qed.

(** ** Registers *)

Lemma index_of_Some x l i :
  index_of x l = Some i ->
  0 <= i < Z.of_nat (length l) /\ l !! Z.to_nat i = Some x.
Proof.
  revert i. induction l as [|y l IH]; intros i; simpl; [discriminate|].
  destruct (String.eqb_spec x y) as [->|Hxy].
  - intros [= <-]. split; [lia | reflexivity].
  - destruct (index_of x l) as [j|]; [|discriminate]. intros [= <-].
    destruct (IH j eq_refl) as [Hj Hl]. split; [lia|].
    replace (Z.to_nat (Z.succ j)) with (S (Z.to_nat j)) by lia. exact Hl.
Qed.

Lemma index_of_None x l : index_of x l = None -> ~ In x l.
Proof.
  induction l as [|y l IH]; simpl; [tauto|].
  destruct (String.eqb_spec x y) as [->|Hxy]; [discriminate|].
  destruct (index_of x l); [discriminate|]. intros _ [H|H]; [congruence | by apply IH].
Qed.

(** X2: [register_offset] is the position of the lower-cased name in
    [registers]: a result [i] is below 7 and the [i]-th register is that
    name; the only other outcome is the diagnostic [Invalid register],
    given exactly for a name that is not a register. *)
Theorem X2_register_offset_is_the_index (self : Assembler) (reg_in : string) :
  match register_offset self reg_in with
  | Ok i => 0 <= i < 7 /\ registers !! Z.to_nat i = Some (PyStr.lower reg_in)
  | Exit n msg =>
      n = line_number self + 1 /\
      msg = "Invalid register " ++ quoted (PyStr.lower reg_in) /\
      ~ In (PyStr.lower reg_in) registers
  | Raise _ => False
  end.
Proof.
  unfold register_offset.
  destruct (index_of (PyStr.lower reg_in) registers) as [i|] eqn:E.
  - apply index_of_Some in E. exact E.
  - apply index_of_None in E. repeat split. exact E.
Qed.

(** ** What the tokenizer stores *)

Lemma parse_directive_kinds s line l d a :
  parse_directive s line = Ok (l, d, a) ->
  d = "" \/ d = ".data" \/ d = ".string".
Proof.
  unfold parse_directive.
  destruct (PyStr.partition line ".data") as [[left1 sep1] right1].
  destruct (negb (PyStr.truthy sep1)) eqn:E1.
  - destruct (PyStr.partition line ".string") as [[left1' sep1'] right1'].
    destruct (negb (PyStr.truthy sep1')); [intros [= _ <- _]; auto|].
    destruct (PyStr.partition left1' ":") as [[left2 sep2] right2].
    destruct (String.eqb sep2 ":"); simpl.
    + destruct (negb _ || _); simpl; [intros ?; discriminate | intros [= _ <- _]; auto].
    + destruct (negb (String.eqb _ _)); simpl; [intros ?; discriminate | intros [= _ <- _]; auto].
  - rewrite E1.
    destruct (PyStr.partition left1 ":") as [[left2 sep2] right2].
    destruct (String.eqb sep2 ":"); simpl.
    + destruct (negb _ || _); simpl; [intros ?; discriminate | intros [= _ <- _]; auto].
    + destruct (negb (String.eqb _ _)); simpl; [intros ?; discriminate | intros [= _ <- _]; auto].
Qed.

(** The operands a line is tokenized into, before they are classified. *)
Lemma parse_operands line s s' :
  parse line s = Ok s' ->
  exists raw1 raw2 raw_mnemonic,
    mnemonic s' = PyStr.lower raw_mnemonic /\
    (if PyStr.truthy (PyStr.lower raw1)
     then (op1_type s', op1 s')
          = classify (take 4 registers) (PyStr.lower raw1) (PyStr.lower raw1)
     else op1_type s' = "" /\ op1 s' = "") /\
    (if PyStr.truthy (PyStr.lower raw2)
     then (op2_type s', op2 s')
          = classify registers (PyStr.lower raw2) (PyStr.lower (PyStr.lower raw2))
     else op2_type s' = "" /\ op2 s' = "").
Proof.
  unfold parse.
  destruct (PyStr.rpartition _ ";") as [[comment_left comment_separator] comment_right].
  destruct (parse_directive s _) as [[[d_label directive] d_args]| |] eqn:D;
    simpl; try discriminate.
  apply parse_directive_kinds in D.
  destruct (PyStr.rpartition _ ",") as [[op2_left op2_separator] op2_right].
  destruct (PyStr.rpartition _ (String _ _)) as [[op1_left_t op1_separator_t] op1_right_t].
  destruct (PyStr.rpartition _ " ") as [[op1_left_s op1_separator_s] op1_right_s].
  destruct (PyStr.rpartition _ ":") as [[mnemonic_left mnemonic_separator] mnemonic_right].
  match goal with
  | |- context [PyStr.truthy (PyStr.lower ?x)] => set (raw1 := x)
  end.
  match goal with
  | |- context [classify registers (PyStr.lower ?x) _] => set (raw2 := x)
  end.
  match goal with
  | |- context [mkAssembler _ _ _ _ _ (PyStr.lower ?x) _ _ _ _ _ _] => set (rm := x)
  end.
  intros H. exists raw1, raw2, rm. revert H.
  destruct (PyStr.truthy (PyStr.lower raw1)) eqn:T1;
    destruct (PyStr.truthy (PyStr.lower raw2)) eqn:T2.
  all: change (take 4 registers) with ["a"; "b"; "c"; "d"].
  all: try destruct (classify _ (PyStr.lower raw1) _) as [kind1 text1].
  all: try destruct (classify _ (PyStr.lower raw2) _) as [kind2 text2].
  all: cbv beta iota; intros [= <-]; cbn [op1 op2 op1_type op2_type mnemonic].
  all: repeat split; try reflexivity.
  all: try (destruct (PyStr.lower raw1); [reflexivity | discriminate]).
  all: try (destruct (PyStr.lower raw2); [reflexivity | discriminate]).
  all: destruct D as [-> | [-> | ->]]; reflexivity.
Qed.

Lemma classify_cases regs op key kind text :
  classify regs op key = (kind, text) ->
  (kind = "mem_adr" /\ text = PyStr.translate (PyStr.delete_codes [91; 93]) op)
  \/ (kind = "imm" /\ text = PyStr.translate (PyStr.delete_codes [35]) op)
  \/ (kind = "reg" /\ text = op /\ In key regs)
  \/ (kind = "label" /\ text = op).
Proof.
  unfold classify.
  destruct (PyStr.startswith op "["); [intros [= <- <-]; auto|].
  destruct (PyStr.startswith op "#"); [intros [= <- <-]; auto|].
  destruct (existsb (String.eqb key) regs) eqn:E; intros [= <- <-]; [|auto 6].
  right. right. left. repeat split.
  apply existsb_exists in E. destruct E as (r & Hr & E).
  apply String.eqb_eq in E. by subst.
Qed.

Lemma translate_delete_has_no codes s c :
  In c codes -> has_char c (PyStr.translate (PyStr.delete_codes codes) s) = false.
Proof.
  intros Hc. unfold has_char. apply negb_false_iff.
  induction s as [|a s IH]; simpl; [reflexivity|].
  unfold PyStr.delete_codes at 1.
  destruct (existsb (Z.eqb (PyStr.code a)) codes) eqn:E; [exact IH|].
  simpl. rewrite IH, andb_true_r. apply negb_true_iff, Z.eqb_neq. intros Hac.
  assert (existsb (Z.eqb (PyStr.code a)) codes = true); [|congruence].
  apply existsb_exists. exists c. split; [done | by apply Z.eqb_eq].
Qed.

Lemma index_of_In x l : In x l -> exists i, index_of x l = Some i.
Proof.
  intros H. destruct (index_of x l) as [i|] eqn:E; [eauto|].
  by apply index_of_None in E.
Qed.

(** X3: the tokenizer stores the mnemonic and both operands in lower
    case. *)
Theorem X3_tokens_are_lower_case
    (line : string) (s s' : Assembler) (H : parse line s = Ok s') :
  PyStr.lower (mnemonic s') = mnemonic s' /\
  PyStr.lower (op1 s') = op1 s' /\
  PyStr.lower (op2 s') = op2 s'.
Proof.
  destruct (parse_operands _ _ _ H) as (raw1 & raw2 & rm & Hm & H1 & H2).
  split; [rewrite Hm; apply lower_idem|]. split.
  - by eapply parse_lowers_op1.
  - destruct (PyStr.truthy (PyStr.lower raw2)).
    + pose proof (lowered_classify registers _ (PyStr.lower (PyStr.lower raw2))
                    (lower_idem raw2)) as L.
      rewrite <- H2 in L. exact L.
    + destruct H2 as [_ ->]. reflexivity.
Qed.

Lemma X3_tokens_are_lower_case_witness :
  let s' := from_ok (parse "Loop: MV #5, SP ; Set Up" fresh) in
  PyStr.lower (mnemonic s') = mnemonic s' /\
  PyStr.lower (op1 s') = op1 s' /\
  PyStr.lower (op2 s') = op2 s'.
Proof.
  cbv zeta.
  apply (X3_tokens_are_lower_case "Loop: MV #5, SP ; Set Up" fresh).
  vm_compute. reflexivity.
Defined.

(** X4: every operand the tokenizer stores has one of the five kinds, an
    empty kind goes with an empty operand, and the markers are gone: an
    Immediate holds no number sign and a MemoryAddress no bracket.  A
    Register operand 1 is one of a, b, c, d, and for a Register operand 2
    [register_offset] succeeds, so the diagnostic [Invalid register] cannot
    come from a tokenized line. *)
Theorem X4_operand_kinds
    (line : string) (s s' : Assembler) (H : parse line s = Ok s') :
  In (op1_type s') operand_kinds /\
  In (op2_type s') operand_kinds /\
  (op1_type s' = "" -> op1 s' = "") /\
  (op2_type s' = "" -> op2 s' = "") /\
  (op1_type s' = "imm" -> has_char 35 (op1 s') = false) /\
  (op2_type s' = "imm" -> has_char 35 (op2 s') = false) /\
  (op1_type s' = "mem_adr" ->
   has_char 91 (op1 s') = false /\ has_char 93 (op1 s') = false) /\
  (op2_type s' = "mem_adr" ->
   has_char 91 (op2 s') = false /\ has_char 93 (op2 s') = false) /\
  (op1_type s' = "reg" -> In (op1 s') (take 4 registers)) /\
  (op2_type s' = "reg" ->
   exists i, register_offset s' (op2 s') = Ok i /\ 0 <= i < 7).
Proof.
  destruct (parse_operands _ _ _ H) as (raw1 & raw2 & rm & _ & H1 & H2).
    assert (K1 : (op1_type s' = "" /\ op1 s' = "")
               \/ exists op key, classify (take 4 registers) op key = (op1_type s', op1 s')
                                 /\ key = op).
  { destruct (PyStr.truthy (PyStr.lower raw1)); [right; eauto | left; exact H1]. }
  assert (K2 : (op2_type s' = "" /\ op2 s' = "")
               \/ exists op key, classify registers op key = (op2_type s', op2 s')
                                 /\ key = PyStr.lower op /\ PyStr.lower op = op).
  { destruct (PyStr.truthy (PyStr.lower raw2)); [right | left; exact H2].
    exists (PyStr.lower raw2), (PyStr.lower (PyStr.lower raw2)).
    rewrite lower_idem. by rewrite lower_idem in H2. }
  clear H1 H2.
  assert (C1 : forall k, op1_type s' = k ->
                 (k = "" /\ op1 s' = "")
                 \/ (k = "mem_adr" /\ exists op, op1 s' = PyStr.translate (PyStr.delete_codes [91; 93]) op)
                 \/ (k = "imm" /\ exists op, op1 s' = PyStr.translate (PyStr.delete_codes [35]) op)
                 \/ (k = "reg" /\ In (op1 s') (take 4 registers))
                 \/ k = "label").
  { intros k <-. destruct K1 as [[-> ->] | (op & key & C & ->)]; [auto|].
    apply classify_cases in C.
    destruct C as [[-> ->] | [[-> ->] | [[-> [-> Hin]] | [-> ->]]]]; eauto 8. }
  assert (C2 : forall k, op2_type s' = k ->
                 (k = "" /\ op2 s' = "")
                 \/ (k = "mem_adr" /\ exists op, op2 s' = PyStr.translate (PyStr.delete_codes [91; 93]) op)
                 \/ (k = "imm" /\ exists op, op2 s' = PyStr.translate (PyStr.delete_codes [35]) op)
                 \/ (k = "reg" /\ In (op2 s') registers /\ PyStr.lower (op2 s') = op2 s')
                 \/ k = "label").
  { intros k <-. destruct K2 as [[-> ->] | (op & key & C & -> & Hl)]; [auto|].
    apply classify_cases in C.
    destruct C as [[-> ->] | [[-> ->] | [[-> [-> Hin]] | [-> ->]]]]; eauto 8.
    right. right. right. left. rewrite Hl in Hin. auto. }
  clear K1 K2.
  repeat split.
  - destruct (C1 _ eq_refl) as [[-> _] | [[-> _] | [[-> _] | [[-> _] | ->]]]];
      unfold operand_kinds; simpl; auto 6.
  - destruct (C2 _ eq_refl) as [[-> _] | [[-> _] | [[-> _] | [[-> _] | ->]]]];
      unfold operand_kinds; simpl; auto 6.
  - intros E. destruct (C1 _ E) as [[_ ?] | [[? _] | [[? _] | [[? _] | ?]]]];
      done.
  - intros E. destruct (C2 _ E) as [[_ ?] | [[? _] | [[? _] | [[? _] | ?]]]];
      done.
  - intros E. destruct (C1 _ E) as [[? _] | [[? _] | [[_ [op ->]] | [[? _] | ?]]]];
      try done. apply translate_delete_has_no. simpl. auto.
  - intros E. destruct (C2 _ E) as [[? _] | [[? _] | [[_ [op ->]] | [[? _] | ?]]]];
      try done. apply translate_delete_has_no. simpl. auto.
  - destruct (C1 _ H0) as [[? _] | [[_ [op ->]] | [[? _] | [[? _] | ?]]]];
      try done. apply translate_delete_has_no. simpl. auto.
  - destruct (C1 _ H0) as [[? _] | [[_ [op ->]] | [[? _] | [[? _] | ?]]]];
      try done. apply translate_delete_has_no. simpl. auto.
  - destruct (C2 _ H0) as [[? _] | [[_ [op ->]] | [[? _] | [[? _] | ?]]]];
      try done. apply translate_delete_has_no. simpl. auto.
  - destruct (C2 _ H0) as [[? _] | [[_ [op ->]] | [[? _] | [[? _] | ?]]]];
      try done. apply translate_delete_has_no. simpl. auto.
  - intros E. destruct (C1 _ E) as [[? _] | [[? _] | [[? _] | [[_ ?] | ?]]]];
      done.
  - intros E. destruct (C2 _ E) as [[? _] | [[? _] | [[? _] | [[_ [Hin Hl]] | ?]]]];
      try done.
    destruct (index_of_In _ _ Hin) as [i Hi].
    exists i. unfold register_offset. rewrite Hl, Hi. split; [reflexivity|].
    apply index_of_Some in Hi. simpl in Hi. lia.
Qed.

Lemma X4_operand_kinds_witness :
  let s' := from_ok (parse "start: add [1F], Sp" fresh) in
  In (op1_type s') operand_kinds /\
  In (op2_type s') operand_kinds /\
  (op1_type s' = "" -> op1 s' = "") /\
  (op2_type s' = "" -> op2 s' = "") /\
  (op1_type s' = "imm" -> has_char 35 (op1 s') = false) /\
  (op2_type s' = "imm" -> has_char 35 (op2 s') = false) /\
  (op1_type s' = "mem_adr" ->
   has_char 91 (op1 s') = false /\ has_char 93 (op1 s') = false) /\
  (op2_type s' = "mem_adr" ->
   has_char 91 (op2 s') = false /\ has_char 93 (op2 s') = false) /\
  (op1_type s' = "reg" -> In (op1 s') (take 4 registers)) /\
  (op2_type s' = "reg" ->
   exists i, register_offset s' (op2 s') = Ok i /\ 0 <= i < 7).
Proof.
  cbv zeta.
  apply (X4_operand_kinds "start: add [1F], Sp" fresh).
  vm_compute. reflexivity.
Defined.

Lemma parse_directive_outcome s line :
  match parse_directive s line with
  | Ok _ => True
  | Exit n msg => n = line_number s + 1 /\ exists l, msg = "Invalid label " ++ quoted l
  | Raise _ => False
  end.
Proof.
  unfold parse_directive.
  destruct (PyStr.partition line ".data") as [[left1 sep1] right1].
  destruct (if negb (PyStr.truthy sep1) then _ else _) as [[[left1' sep1'] right1'] d_type].
  destruct (negb (PyStr.truthy sep1')); [done|].
  destruct (PyStr.partition left1' ":") as [[left2 sep2] right2].
  destruct (String.eqb sep2 ":"); simpl.
  - destruct (negb _ || _); simpl; [|done]. split; [reflexivity | eauto].
  - destruct (negb (String.eqb _ _)); simpl; [|done]. split; [reflexivity | eauto].
Qed.

Lemma parse_outcome (line : string) (s : Assembler) :
  match parse line s with
  | Ok s' =>
      line_number s' = line_number s /\ pass_number s' = pass_number s /\
      address s' = address s /\ output s' = output s /\
      symbol_table s' = symbol_table s
  | Exit n msg =>
      n = line_number s + 1 /\ exists l, msg = "Invalid label " ++ quoted l
  | Raise _ => False
  end.
Proof.
  destruct (parse line s) as [s'|n msg|e] eqn:E.
  - destruct (parse_retoken _ _ _ s E) as [-> _]. repeat split.
  - revert E. unfold parse.
    destruct (PyStr.rpartition _ ";") as [[comment_left comment_separator] comment_right].
    pose proof (parse_directive_outcome s
                  (if PyStr.truthy comment_separator then comment_left
                   else PyStr.rstrip comment_right)) as O.
    destruct (parse_directive s _) as [[[d_label directive] d_args]| |]; simpl.
    + destruct (PyStr.rpartition _ ",") as [[? ?] ?].
      destruct (PyStr.rpartition _ (String _ _)) as [[? ?] ?].
      destruct (PyStr.rpartition _ " ") as [[? ?] ?].
      destruct (PyStr.rpartition _ ":") as [[? ?] ?].
      repeat match goal with
             | |- context [match ?e with (_, _) => _ end] => destruct e as [[? ?] ?]
             end.
      discriminate.
    + intros [= <- <-]. exact O.
    + discriminate.
  - revert E. unfold parse.
    destruct (PyStr.rpartition _ ";") as [[comment_left comment_separator] comment_right].
    pose proof (parse_directive_outcome s
                  (if PyStr.truthy comment_separator then comment_left
                   else PyStr.rstrip comment_right)) as O.
    destruct (parse_directive s _) as [[[d_label directive] d_args]| |]; simpl.
    + destruct (PyStr.rpartition _ ",") as [[? ?] ?].
      destruct (PyStr.rpartition _ (String _ _)) as [[? ?] ?].
      destruct (PyStr.rpartition _ " ") as [[? ?] ?].
      destruct (PyStr.rpartition _ ":") as [[? ?] ?].
      repeat match goal with
             | |- context [match ?e with (_, _) => _ end] => destruct e as [[? ?] ?]
             end.
      discriminate.
    + discriminate.
    + done.
Qed.

(** X5: the tokenizer never raises an exception and rejects a line in one
    way only, with the diagnostic [Invalid label] for the line being read;
    when it accepts a line it replaces the tokens and leaves the line
    number, the pass number, the location counter, the output and the
    symbol table as they were. *)
Theorem X5_tokenizer_outcomes (line : string) (s : Assembler) :
  match parse line s with
  | Ok s' =>
      line_number s' = line_number s /\ pass_number s' = pass_number s /\
      address s' = address s /\ output s' = output s /\
      symbol_table s' = symbol_table s
  | Exit n msg =>
      n = line_number s + 1 /\ exists l, msg = "Invalid label " ++ quoted l
  | Raise _ => False
  end.
Proof. exact (parse_outcome line s). Qed.

(** X6: a line of blanks only is skipped: in any state and any pass it
    clears the tokens, counts as one line, and changes neither the location
    counter nor the output nor the symbol table. *)
Theorem X6_blank_line_is_skipped
    (line : string) (s : Assembler) (H : PyStr.lstrip line = "") :
  _assemble_line s line
  = Ok (set_line_number (retoken s fresh) (line_number s + 1)).
Proof.
  unfold _assemble_line, parse. rewrite H. destruct s. reflexivity.
Qed.

Lemma X6_blank_line_witness :
  _assemble_line (begin_pass fresh) "   "
  = Ok (set_line_number (retoken (begin_pass fresh) fresh)
          (line_number (begin_pass fresh) + 1)).
Proof.
  apply (X6_blank_line_is_skipped "   " (begin_pass fresh)).
  vm_compute. reflexivity.
Defined.

Lemma rfind_split_absent (c : ascii) (s : string) :
  has_char (PyStr.code c) s = false ->
  PyStr.rfind_split (String c EmptyString) s = None.
Proof.
  unfold has_char. rewrite negb_false_iff.
  induction s as [|a s IH]; simpl; [reflexivity|].
  intros H. apply andb_prop in H. destruct H as [Ha Hs].
  rewrite (IH Hs). unfold PyStr.startswith. simpl.
  destruct (ascii_dec c a) as [->|Hne].
  - rewrite Z.eqb_refl in Ha. discriminate.
  - destruct s; reflexivity.
Qed.

(** X7: a comment line is skipped as well.  When the first character after
    the leading blanks is a semicolon and the rest of the line holds no
    other semicolon, the line only stores the stripped comment text and
    counts as one line. *)
Theorem X7_comment_line_is_skipped
    (line text : string) (s : Assembler)
    (Hline : PyStr.translate PyStr.tab_to_space (PyStr.lstrip line)
             = String ";" text)
    (Htext : has_char 59 text = false) :
  _assemble_line s line
  = Ok (mkAssembler (line_number s + 1) (pass_number s) (address s) (output s)
          "" "" "" "" (PyStr.strip text) "" "" (symbol_table s)).
Proof.
  unfold _assemble_line, parse. rewrite Hline.
  assert (R : PyStr.rpartition (String ";" text) ";" = ("", ";", text)).
  { unfold PyStr.rpartition. cbn [PyStr.rfind_split].
    rewrite (rfind_split_absent ";" text Htext).
    unfold PyStr.startswith. destruct text; reflexivity. }
  rewrite R. destruct s. reflexivity.
Qed.

Lemma X7_comment_line_witness :
  _assemble_line (begin_pass fresh) "  ; set up the stack"
  = Ok (mkAssembler (line_number (begin_pass fresh) + 1)
          (pass_number (begin_pass fresh)) (address (begin_pass fresh))
          (output (begin_pass fresh))
          "" "" "" "" (PyStr.strip " set up the stack") "" ""
          (symbol_table (begin_pass fresh))).
Proof.
  apply (X7_comment_line_is_skipped "  ; set up the stack" " set up the stack"
           (begin_pass fresh)).
  - vm_compute. reflexivity.
  - vm_compute. reflexivity.
Defined.

(** ** Arity and operand encoding *)

Lemma truthy_empty s : PyStr.truthy s = false <-> s = "".
Proof. destruct s; simpl; split; congruence. Qed.

Lemma truthy_nonempty s : PyStr.truthy s = true <-> s <> "".
Proof. destruct s; simpl; split; congruence. Qed.

(** X8: every instruction handler checks its arity before anything else.
    A two-operand mnemonic with an operand missing, a one-operand mnemonic
    without operand 1 or with an operand 2, and [ret] or [hlt] with any
    operand stop with the diagnostic [Invalid operands for mnemonic]; no
    byte is emitted. *)
Theorem X8_arity_is_verified_first (s : Assembler) :
  (forall h, In h two_operand_handlers ->
     op1 s = "" \/ op2 s = "" -> h s = invalid_operands s) /\
  (forall h, In h one_operand_handlers ->
     op1 s = "" \/ op2 s <> "" -> h s = invalid_operands s) /\
  (forall h, In h no_operand_handlers ->
     op1 s <> "" \/ op2 s <> "" -> h s = invalid_operands s).
Proof.
  split; [|split]; intros h Hin Hops.
  - assert (E : both (op1 s) (op2 s) = false).
    { unfold both. destruct Hops as [-> | ->]; [reflexivity | apply andb_false_r]. }
    simpl in Hin.
    repeat (destruct Hin as [<- | Hin];
            [unfold _mv, _io, _add, _sub, _and, _or, _not, _cmp, verify_ops;
             rewrite E; reflexivity |]).
    contradiction.
  - assert (E : only_first (op1 s) (op2 s) = false).
    { unfold only_first. destruct Hops as [-> | Hn]; [reflexivity|].
      apply truthy_nonempty in Hn. rewrite Hn. apply andb_false_r. }
    simpl in Hin.
    repeat (destruct Hin as [<- | Hin];
            [unfold _push, _pop, _inc, _dec, _call, _jnz, verify_ops;
             rewrite E; reflexivity |]).
    contradiction.
  - assert (E : neither (op1 s) (op2 s) = false).
    { unfold neither. apply negb_false_iff.
      destruct Hops as [Hn | Hn]; apply truthy_nonempty in Hn; rewrite Hn;
        [reflexivity | apply orb_true_r]. }
    simpl in Hin.
    repeat (destruct Hin as [<- | Hin];
            [unfold _ret, _hlt, verify_ops; rewrite E; reflexivity |]).
    contradiction.
Qed.

Lemma encode_one_operand_register s opcode :
  op1_type s = "reg" ->
  encode_operand_types s opcode 1
  = Exit (line_number s + 1) ("Invalid operand " ++ quoted (op1 s)).
Proof.
  intros H. unfold encode_operand_types. rewrite H.
  cbv [matches existsb fst snd]. eval_eqb. reflexivity.
Qed.

(** X9: a Register operand 1 is rejected by every mnemonic that is encoded
    with one operand.  [push], [pop], [inc], [dec], [call] and [jnz] with a
    register as their only operand, and [io] with a register and a port,
    stop with the diagnostic [Invalid operand] naming the register. *)
Theorem X9_register_operand_1_is_rejected
    (s : Assembler) (Hkind : op1_type s = "reg") (Hop1 : op1 s <> "") :
  (op2 s = "" ->
   forall h, In h one_operand_handlers ->
     h s = Exit (line_number s + 1) ("Invalid operand " ++ quoted (op1 s))) /\
  (op2 s <> "" ->
   _io s = Exit (line_number s + 1) ("Invalid operand " ++ quoted (op1 s))).
Proof.
  apply truthy_nonempty in Hop1.
  split.
  - intros Hop2 h Hin.
    assert (E : only_first (op1 s) (op2 s) = true).
    { unfold only_first. rewrite Hop1, Hop2. reflexivity. }
    simpl in Hin.
    repeat (destruct Hin as [<- | Hin];
            [unfold _push, _pop, _inc, _dec, _call, _jnz, verify_ops;
             rewrite E; simpl; rewrite encode_one_operand_register by done;
             reflexivity |]).
    contradiction.
  - intros Hop2. apply truthy_nonempty in Hop2.
    unfold _io, verify_ops, both. rewrite Hop1, Hop2, Hkind. eval_eqb. simpl.
    rewrite encode_one_operand_register by done. reflexivity.
Qed.

Lemma X9_register_operand_1_witness :
  let s := from_ok (parse "inc a" (begin_pass fresh)) in
  (op2 s = "" ->
   forall h, In h one_operand_handlers ->
     h s = Exit (line_number s + 1) ("Invalid operand " ++ quoted (op1 s))) /\
  (op2 s <> "" ->
   _io s = Exit (line_number s + 1) ("Invalid operand " ++ quoted (op1 s))).
Proof.
  cbv zeta.
  apply (X9_register_operand_1_is_rejected (from_ok (parse "inc a" (begin_pass fresh)))).
  - vm_compute. reflexivity.
  - vm_compute. discriminate.
Defined.

Lemma nibble3_of_word opcode w :
  0 <= opcode < 16 -> Z.shiftl opcode 12 <= w < Z.shiftl opcode 12 + 4096 ->
  nibble 3 w = opcode.
Proof.
  intros Hop Hw. unfold nibble. rewrite Z.shiftl_mul_pow2 in Hw by lia.
  change (4 * 3) with 12. rewrite Z.shiftr_div_pow2 by lia.
  change 15 with (Z.ones 4). rewrite Z.land_ones by lia.
  change (2 ^ 12) with 4096 in *. change (2 ^ 4) with 16.
  assert (w / 4096 = opcode) as ->.
  { symmetry. apply (Z.div_unique w 4096 opcode (w - opcode * 4096)); lia. }
  apply Z.mod_small. lia.
Qed.

Lemma fields_of_word_low opcode g :
  0 <= opcode < 16 -> 0 <= g < 16 ->
  fields (Z.shiftl opcode 12 + g) = (opcode, 0, 0, g).
Proof.
  intros Hop Hg.
  assert (E : opcode = 0 \/ opcode = 1 \/ opcode = 2 \/ opcode = 3 \/ opcode = 4
              \/ opcode = 5 \/ opcode = 6 \/ opcode = 7 \/ opcode = 8 \/ opcode = 9
              \/ opcode = 10 \/ opcode = 11 \/ opcode = 12 \/ opcode = 13
              \/ opcode = 14 \/ opcode = 15) by lia.
  assert (G : g = 0 \/ g = 1 \/ g = 2 \/ g = 3 \/ g = 4 \/ g = 5 \/ g = 6 \/ g = 7
              \/ g = 8 \/ g = 9 \/ g = 10 \/ g = 11 \/ g = 12 \/ g = 13
              \/ g = 14 \/ g = 15) by lia.
  clear Hop Hg.
  repeat (destruct E as [-> | E]);
    repeat (destruct G as [-> | G]); subst; reflexivity.
Qed.

Lemma encode_two_operands s opcode :
  encode_operand_types s opcode 2 =
    if String.eqb (op2_type s) "reg"
    then r ← register_offset s (op2 s); Ok (Z.shiftl opcode 12 + r)
    else if String.eqb (op2_type s) "mem_adr" || String.eqb (op2_type s) "label"
    then Ok (Z.shiftl opcode 12 + Z.shiftl 15 4)
    else if String.eqb (op2_type s) ""
    then Ok (Z.shiftl opcode 12)
    else Exit (line_number s + 1) ("Invalid operand " ++ quoted (op2 s)).
Proof.
  unfold encode_operand_types. cbv [matches existsb fst snd].
  rewrite !andb_false_r. simpl. rewrite !orb_false_r, !andb_true_r. reflexivity.
Qed.

(** X10: for a mnemonic encoded with two operands the word holds the opcode
    in bits 15-12 and operand 2 below it: a Register puts its index into
    bits 3-0, a MemoryAddress or a LabelRef puts 0xF into bits 7-4, an empty
    operand adds nothing, and an Immediate is rejected with the diagnostic
    [Invalid operand]. *)
Theorem X10_operand_2_encoding
    (s : Assembler) (opcode : Z) (Hop : 0 <= opcode < 16) :
  (op2_type s = "reg" ->
   forall i, register_offset s (op2 s) = Ok i ->
     exists w, encode_operand_types s opcode 2 = Ok w
               /\ fields w = (opcode, 0, 0, i)) /\
  (op2_type s = "mem_adr" \/ op2_type s = "label" ->
   exists w, encode_operand_types s opcode 2 = Ok w
             /\ fields w = (opcode, 0, 15, 0)) /\
  (op2_type s = "" ->
   exists w, encode_operand_types s opcode 2 = Ok w
             /\ fields w = (opcode, 0, 0, 0)) /\
  (op2_type s = "imm" ->
   encode_operand_types s opcode 2
   = Exit (line_number s + 1) ("Invalid operand " ++ quoted (op2 s))).
Proof.
  rewrite encode_two_operands. repeat split.
  - intros -> i Hi. eval_eqb. rewrite Hi. simpl. eexists. split; [reflexivity|].
    pose proof (Hidx := index_of_Some (PyStr.lower (op2 s)) registers i).
    unfold register_offset in Hi.
    destruct (index_of _ _) as [j|]; [|discriminate]. injection Hi as ->.
    destruct (Hidx eq_refl) as [Hi _]. simpl in Hi.
    apply fields_of_word_low; lia.
  - intros [-> | ->]; eval_eqb; simpl; eexists; (split; [reflexivity|]);
      apply fields_of_word; auto.
  - intros ->. eval_eqb. simpl. eexists. split; [reflexivity|].
    rewrite <- (Z.add_0_r (Z.shiftl opcode 12)). apply fields_of_word_low; lia.
  - intros ->. eval_eqb. reflexivity.
Qed.

Lemma X10_operand_2_encoding_witness :
  let s := from_ok (parse "add #1, sp" (begin_pass fresh)) in
  (op2_type s = "reg" ->
   forall i, register_offset s (op2 s) = Ok i ->
     exists w, encode_operand_types s 4 2 = Ok w
               /\ fields w = (4, 0, 0, i)) /\
  (op2_type s = "mem_adr" \/ op2_type s = "label" ->
   exists w, encode_operand_types s 4 2 = Ok w
             /\ fields w = (4, 0, 15, 0)) /\
  (op2_type s = "" ->
   exists w, encode_operand_types s 4 2 = Ok w
             /\ fields w = (4, 0, 0, 0)) /\
  (op2_type s = "imm" ->
   encode_operand_types s 4 2
   = Exit (line_number s + 1) ("Invalid operand " ++ quoted (op2 s))).
Proof.
  cbv zeta.
  apply (X10_operand_2_encoding (from_ok (parse "add #1, sp" (begin_pass fresh))) 4).
  lia.
Defined.

Lemma encode_one_operand_cases s opcode :
  encode_operand_types s opcode 1 =
    if String.eqb (op1_type s) "imm" then Ok (Z.shiftl opcode 12 + Z.shiftl 14 4)
    else if String.eqb (op1_type s) "mem_adr" || String.eqb (op1_type s) "label"
    then Ok (Z.shiftl opcode 12 + Z.shiftl 15 4)
    else if String.eqb (op1_type s) ""
    then Ok (Z.shiftl opcode 12)
    else Exit (line_number s + 1) ("Invalid operand " ++ quoted (op1 s)).
Proof.
  unfold encode_operand_types. cbv [matches existsb fst snd].
  rewrite !andb_false_r. simpl. rewrite !orb_false_r, !andb_true_r.
  repeat (destruct (String.eqb (op1_type s) _); simpl; try reflexivity).
Qed.

Lemma encode_bound s opcode n w :
  n = 1 \/ n = 2 ->
  encode_operand_types s opcode n = Ok w ->
  Z.shiftl opcode 12 <= w <= Z.shiftl opcode 12 + 240.
Proof.
  intros [-> | ->].
  - rewrite encode_one_operand_cases.
    repeat (destruct (String.eqb (op1_type s) _); simpl);
      intros [= <-]; change (Z.shiftl 14 4) with 224;
      change (Z.shiftl 15 4) with 240; lia.
  - rewrite encode_two_operands.
    destruct (String.eqb (op2_type s) "reg").
    + intros H. bind_inv H. injection H as <-.
      unfold register_offset in Hv.
      destruct (index_of _ _) as [j|] eqn:E; [|discriminate]. injection Hv as ->.
      apply index_of_Some in E. simpl in E. lia.
    + repeat (destruct (String.eqb (op2_type s) _); simpl);
        intros [= <-]; change (Z.shiftl 15 4) with 240; lia.
Qed.

(** The opcode word of an instruction, followed by what an [Eff] step adds. *)
Lemma opcode_word_then k s s' w :
  Eff k -> get_pass_number s <> 1 ->
  (s1 ← emit_opcode s w; k s1) = Ok s' ->
  0 <= w < 65536 /\
  exists rest, output s' = (output s ++ word_bytes w ++ rest)%list.
Proof.
  intros Hk Hp H. bind_inv H. rename v into s1.
  unfold emit_opcode in Hv. bind_inv Hv.
  unfold to_bytes_unsigned in Hv0.
  destruct (Z.leb_spec 0 w), (Z.ltb_spec w 65536); try discriminate.
  injection Hv0 as <-. rewrite pass_action_pass2 in Hv by done. injection Hv as <-.
  destruct (Hk (upd s 0 (word_bytes w)) s' Hp H) as (da & bs & _ & -> & _).
  split; [lia|]. exists bs. simpl. by rewrite <- app_assoc.
Qed.

Lemma opcode_word_nibble opcode w :
  0 <= opcode < 16 ->
  Z.shiftl opcode 12 <= w <= Z.shiftl opcode 12 + 242 ->
  0 <= w < 65536 ->
  exists lo hi, word_bytes w = [lo; hi]
                /\ nibble 3 (from_bytes_unsigned [lo; hi]) = opcode.
Proof.
  intros Hop Hw Hr. eexists _, _. split; [reflexivity|].
  change (from_bytes_unsigned [_; _]) with (from_bytes_unsigned (word_bytes w)).
  rewrite from_bytes_word by done. apply nibble3_of_word; lia.
Qed.

Ltac opcode_case k n :=
  let H := fresh "H" in
  intros H; bind_inv H; bind_inv H;
  match goal with
  | Hv : encode_operand_types _ k n = Ok ?w |- _ =>
      apply encode_bound in Hv; [|auto];
      change (Z.shiftl k 12) with (k * 4096) in Hv
  end.

(** X11: the first word an instruction emits carries its opcode.  Whenever
    one of the sixteen handlers succeeds outside pass 1, the output grows by
    a little-endian word whose bits 15-12 are the opcode of the mnemonic,
    followed by the trailing bytes of the statement. *)
Theorem X11_first_word_carries_the_opcode
    (h : Assembler -> result Assembler) (k : Z) (s s' : Assembler)
    (Hin : In (h, k) opcodes)
    (Hpass : get_pass_number s <> 1)
    (Hok : h s = Ok s') :
  exists lo hi rest,
    output s' = (output s ++ lo :: hi :: rest)%list /\
    nibble 3 (from_bytes_unsigned [lo; hi]) = k.
Proof.
  assert (Step : forall cont w,
             Eff cont ->
             k * 4096 <= w <= k * 4096 + 242 -> 0 <= k < 16 ->
             (s1 ← emit_opcode s w; cont s1) = Ok s' ->
             exists lo hi rest,
               output s' = (output s ++ lo :: hi :: rest)%list /\
               nibble 3 (from_bytes_unsigned [lo; hi]) = k).
  { intros cont w Hc Hw Hk H.
    destruct (opcode_word_then _ _ _ _ Hc Hpass H) as (Hr & rest & Hout).
    destruct (opcode_word_nibble k w Hk) as (lo & hi & Hb & Hn);
      [rewrite Z.shiftl_mul_pow2 by lia; exact Hw | exact Hr |].
    exists lo, hi, rest. rewrite Hout, Hb. split; [reflexivity | exact Hn]. }
  assert (Last : forall w,
             k * 4096 <= w <= k * 4096 + 242 -> 0 <= k < 16 ->
             emit_opcode s w = Ok s' ->
             exists lo hi rest,
               output s' = (output s ++ lo :: hi :: rest)%list /\
               nibble 3 (from_bytes_unsigned [lo; hi]) = k).
  { intros w Hw Hk H. apply (Step Ok w Eff_ret Hw Hk).
    rewrite H. reflexivity. }
  assert (Fixed : forall lo hi,
             nibble 3 (from_bytes_unsigned [lo; hi]) = k ->
             pass_action s 2 [lo; hi] = Ok s' ->
             exists lo hi rest,
               output s' = (output s ++ lo :: hi :: rest)%list /\
               nibble 3 (from_bytes_unsigned [lo; hi]) = k).
  { intros lo hi Hn H. rewrite pass_action_pass2 in H by done. injection H as <-.
    exists lo, hi, []. split; [reflexivity | exact Hn]. }
  simpl in Hin. revert Hok.
  repeat (destruct Hin as [[= <- <-] | Hin]; [|]); try contradiction.
  - unfold _mv. opcode_case 0 2.
    apply (Step (fun s => s ← immediate_operand s; memory_address s) v0);
      [repeat eff_step | lia | lia | exact H].
  - unfold _io. intros H. do 4 bind_inv H.
    apply encode_bound in Hv1; [|auto]. change (Z.shiftl 1 12) with (1 * 4096) in Hv1.
    apply (Step (fun s => s ← immediate_operand s; memory_address s) v2);
      [repeat eff_step | | lia | exact H].
    clear Hv0.
    destruct (String.eqb (PyStr.lower (op2 s)) "in"); [injection Hv2 as <-; lia|].
    destruct (String.eqb (PyStr.lower (op2 s)) "out");
      [injection Hv2 as <-; lia | discriminate].
  - unfold _push. opcode_case 2 1.
    apply (Step (fun s => s ← immediate_operand s; memory_address s) v0);
      [repeat eff_step | lia | lia | exact H].
  - unfold _pop. opcode_case 3 1.
    apply (Step memory_address v0); [repeat eff_step | lia | lia | exact H].
  - unfold _add. opcode_case 4 2.
    apply (Step (fun s => s ← immediate_operand s; memory_address s) v0);
      [repeat eff_step | lia | lia | exact H].
  - unfold _sub. opcode_case 5 2.
    apply (Step (fun s => s ← immediate_operand s; memory_address s) v0);
      [repeat eff_step | lia | lia | exact H].
  - unfold _inc. opcode_case 6 1. apply (Last v0); [lia | lia | exact H].
  - unfold _dec. opcode_case 7 1. apply (Last v0); [lia | lia | exact H].
  - unfold _and. opcode_case 8 2.
    apply (Step (fun s => s ← immediate_operand s; memory_address s) v0);
      [repeat eff_step | lia | lia | exact H].
  - unfold _or. opcode_case 9 2.
    apply (Step (fun s => s ← immediate_operand s; memory_address s) v0);
      [repeat eff_step | lia | lia | exact H].
  - unfold _not. opcode_case 10 2.
    apply (Step (fun s => s ← immediate_operand s; memory_address s) v0);
      [repeat eff_step | lia | lia | exact H].
  - unfold _cmp. opcode_case 11 2.
    apply (Step (fun s => s ← immediate_operand s; memory_address s) v0);
      [repeat eff_step | lia | lia | exact H].
  - unfold _call. opcode_case 12 1.
    apply (Step immediate_operand v0); [repeat eff_step | lia | lia | exact H].
  - unfold _jnz. opcode_case 13 1.
    apply (Step immediate_operand v0); [repeat eff_step | lia | lia | exact H].
  - unfold _ret. intros H. bind_inv H. apply (Fixed x00 xe0); [reflexivity | exact H].
  - unfold _hlt. intros H. bind_inv H. apply (Fixed x00 xf0); [reflexivity | exact H].
Qed.

Lemma X11_first_word_witness :
  let s := from_ok (parse "cmp #10, bp" (begin_pass fresh)) in
  let s' := from_ok (_cmp s) in
  exists lo hi rest,
    output s' = (output s ++ lo :: hi :: rest)%list /\
    nibble 3 (from_bytes_unsigned [lo; hi]) = 11.
Proof.
  cbv zeta.
  apply (X11_first_word_carries_the_opcode _cmp 11).
  - simpl. do 11 right. left. reflexivity.
  - vm_compute. discriminate.
  - vm_compute. reflexivity.
Defined.

(** ** The operand fields of the opcode word *)

(** The word an instruction emits first, read back from the output. *)
Lemma first_word_of cont s s' w :
  Eff cont -> get_pass_number s <> 1 ->
  (s1 ← emit_opcode s w; cont s1) = Ok s' ->
  exists lo hi rest,
    output s' = (output s ++ lo :: hi :: rest)%list /\
    from_bytes_unsigned [lo; hi] = w.
Proof.
  intros Hc Hp H.
  destruct (opcode_word_then _ _ _ _ Hc Hp H) as (Hr & rest & Hout).
  eexists _, _, rest. split; [exact Hout|].
  change (from_bytes_unsigned (word_bytes w) = w). by apply from_bytes_word.
Qed.

Lemma encode_one_operand_field s k w :
  encode_operand_types s k 1 = Ok w ->
  exists f, w = Z.shiftl k 12 + Z.shiftl f 4 /\
    (f = 0 \/ f = 14 \/ f = 15) /\
    (op1_type s = "imm" -> f = 14) /\
    (op1_type s = "mem_adr" \/ op1_type s = "label" -> f = 15) /\
    (op1_type s = "" -> f = 0).
Proof.
  rewrite encode_one_operand_cases.
  destruct (String.eqb_spec (op1_type s) "imm") as [E|E].
  { intros [= <-]. exists 14. rewrite E.
    repeat split; auto; [intros [?|?]; discriminate | intros ?; discriminate]. }
  destruct (String.eqb_spec (op1_type s) "mem_adr") as [E1|E1].
  { intros [= <-]. exists 15. rewrite E1.
    repeat split; auto; intros ?; discriminate. }
  destruct (String.eqb_spec (op1_type s) "label") as [E2|E2].
  { intros [= <-]. exists 15. rewrite E2.
    repeat split; auto; intros ?; discriminate. }
  destruct (String.eqb_spec (op1_type s) "") as [E3|E3]; [|discriminate].
  intros [= <-]. exists 0. rewrite E3, Z.add_0_r.
  repeat split; auto; [intros ?; discriminate | intros [?|?]; discriminate].
Qed.

Lemma fields_of_io_word f p :
  f = 0 \/ f = 14 \/ f = 15 -> p = 1 \/ p = 2 ->
  fields (Z.shiftl 1 12 + Z.shiftl f 4 + p) = (1, 0, f, p).
Proof. intros [-> | [-> | ->]] [-> | ->]; reflexivity. Qed.

Lemma encode_two_operands_field s k w :
  0 <= k < 16 ->
  encode_operand_types s k 2 = Ok w ->
  (op2_type s = "reg" ->
   exists i, register_offset s (op2 s) = Ok i /\ fields w = (k, 0, 0, i)) /\
  (op2_type s = "mem_adr" \/ op2_type s = "label" -> fields w = (k, 0, 15, 0)) /\
  (op2_type s = "" -> fields w = (k, 0, 0, 0)).
Proof.
  intros Hk. rewrite encode_two_operands.
  destruct (String.eqb_spec (op2_type s) "reg") as [E|E].
  { intros H. bind_inv H. injection H as <-. rewrite E.
    split; [|split; [intros [?|?]; discriminate | intros ?; discriminate]].
    intros _. exists v. split; [exact Hv|].
    unfold register_offset in Hv.
    destruct (index_of _ _) as [j|] eqn:I; [|discriminate]. injection Hv as ->.
    apply index_of_Some in I. simpl in I. apply fields_of_word_low; lia. }
  destruct (String.eqb_spec (op2_type s) "mem_adr") as [E1|E1].
  { intros [= <-]. cbn [orb]. split; [done|]. split; [|rewrite E1; intros ?; discriminate].
    intros _. apply fields_of_word; auto. }
  destruct (String.eqb_spec (op2_type s) "label") as [E2|E2].
  { intros [= <-]. split; [done|]. split; [|rewrite E2; intros ?; discriminate].
    intros _. apply fields_of_word; auto. }
  destruct (String.eqb_spec (op2_type s) "") as [E3|E3]; [|discriminate].
  intros [= <-]. split; [done|]. split; [intros [?|?]; done|].
  intros _. rewrite <- (Z.add_0_r (Z.shiftl k 12)). apply fields_of_word_low; lia.
Qed.

Ltac encoded_case :=
  let H := fresh "H" in
  intros H; bind_inv H; bind_inv H.

(** C4, amended: the operand-1 field of the opcode word is bits 7-4, not
    bits 11-8.  Whenever a statement of [push], [pop], [inc], [dec], [call]
    or [jnz] is assembled, the word it emits first holds the opcode in bits
    15-12, zero in bits 11-8, the operand-1 field in bits 7-4 and zero in
    bits 3-0; a statement of [io] emits the same fields with its port code
    in bits 3-0, 1 for [in] and 2 for [out].  The field is 0xE for an
    Immediate, 0xF for a MemoryAddress or a LabelRef and 0x0 for an empty
    operand.  For [mv], [add], [sub], [and], [or], [not] and [cmp] an
    operand 1 of one of these kinds adds nothing to the word: below the
    opcode it holds operand 2 only, a register index in bits 3-0 or 0xF in
    bits 7-4 for a MemoryAddress or a LabelRef. *)
Theorem C4_operand_1_field_is_bits_7_to_4_of_the_emitted_word
    (s s' : Assembler) (Hpass : get_pass_number s <> 1) :
  (forall h k, In (h, k) encoded_with_one_operand -> h s = Ok s' ->
     exists lo hi rest f,
       output s' = (output s ++ lo :: hi :: rest)%list /\
       fields (from_bytes_unsigned [lo; hi]) = (k, 0, f, 0) /\
       (op1_type s = "imm" -> f = 14) /\
       (op1_type s = "mem_adr" \/ op1_type s = "label" -> f = 15) /\
       (op1_type s = "" -> f = 0)) /\
  (_io s = Ok s' ->
     exists lo hi rest f p,
       output s' = (output s ++ lo :: hi :: rest)%list /\
       fields (from_bytes_unsigned [lo; hi]) = (1, 0, f, p) /\
       (op1_type s = "imm" -> f = 14) /\
       (op1_type s = "mem_adr" \/ op1_type s = "label" -> f = 15) /\
       (op1_type s = "" -> f = 0) /\
       (PyStr.lower (op2 s) = "in" -> p = 1) /\
       (PyStr.lower (op2 s) = "out" -> p = 2)) /\
  (forall h k, In (h, k) encoded_with_two_operands ->
     In (op1_type s) ["imm"; "mem_adr"; "label"; ""] ->
     h s = Ok s' ->
     exists lo hi rest,
       output s' = (output s ++ lo :: hi :: rest)%list /\
       (op2_type s = "reg" ->
        exists i, register_offset s (op2 s) = Ok i /\
                  fields (from_bytes_unsigned [lo; hi]) = (k, 0, 0, i)) /\
       (op2_type s = "mem_adr" \/ op2_type s = "label" ->
        fields (from_bytes_unsigned [lo; hi]) = (k, 0, 15, 0)) /\
       (op2_type s = "" ->
        fields (from_bytes_unsigned [lo; hi]) = (k, 0, 0, 0))).
Proof.
  assert (One : forall k cont w,
             Eff cont -> 0 <= k < 16 ->
             encode_operand_types s k 1 = Ok w ->
             (s1 ← emit_opcode s w; cont s1) = Ok s' ->
             exists lo hi rest f,
               output s' = (output s ++ lo :: hi :: rest)%list /\
               fields (from_bytes_unsigned [lo; hi]) = (k, 0, f, 0) /\
               (op1_type s = "imm" -> f = 14) /\
               (op1_type s = "mem_adr" \/ op1_type s = "label" -> f = 15) /\
               (op1_type s = "" -> f = 0)).
  { intros k cont w Hc Hk He H.
    destruct (first_word_of _ _ _ _ Hc Hpass H) as (lo & hi & rest & Hout & Hw).
    destruct (encode_one_operand_field _ _ _ He) as (f & -> & Hf & Hkinds).
    exists lo, hi, rest, f. split; [exact Hout|]. split; [|exact Hkinds].
    rewrite Hw. by apply fields_of_word. }
  assert (Two : forall k cont w,
             Eff cont -> 0 <= k < 16 ->
             encode_operand_types s k 2 = Ok w ->
             (s1 ← emit_opcode s w; cont s1) = Ok s' ->
             exists lo hi rest,
               output s' = (output s ++ lo :: hi :: rest)%list /\
               (op2_type s = "reg" ->
                exists i, register_offset s (op2 s) = Ok i /\
                          fields (from_bytes_unsigned [lo; hi]) = (k, 0, 0, i)) /\
               (op2_type s = "mem_adr" \/ op2_type s = "label" ->
                fields (from_bytes_unsigned [lo; hi]) = (k, 0, 15, 0)) /\
               (op2_type s = "" ->
                fields (from_bytes_unsigned [lo; hi]) = (k, 0, 0, 0))).
  { intros k cont w Hc Hk He H.
    destruct (first_word_of _ _ _ _ Hc Hpass H) as (lo & hi & rest & Hout & Hw).
    exists lo, hi, rest. split; [exact Hout|]. rewrite Hw.
    by apply encode_two_operands_field. }
  split; [|split].
  - intros h k Hin. simpl in Hin.
    repeat (destruct Hin as [[= <- <-] | Hin]; [|]); try contradiction.
    + unfold _push. encoded_case.
      apply (One 2 (fun s => s ← immediate_operand s; memory_address s) v0);
        [repeat eff_step | lia | exact Hv0 | exact H].
    + unfold _pop. encoded_case.
      apply (One 3 memory_address v0); [repeat eff_step | lia | exact Hv0 | exact H].
    + unfold _inc. encoded_case.
      apply (One 6 Ok v0); [apply Eff_ret | lia | exact Hv0 |].
      rewrite H. reflexivity.
    + unfold _dec. encoded_case.
      apply (One 7 Ok v0); [apply Eff_ret | lia | exact Hv0 |].
      rewrite H. reflexivity.
    + unfold _call. encoded_case.
      apply (One 12 immediate_operand v0); [repeat eff_step | lia | exact Hv0 | exact H].
    + unfold _jnz. encoded_case.
      apply (One 13 immediate_operand v0); [repeat eff_step | lia | exact Hv0 | exact H].
  - unfold _io. intros H. do 4 bind_inv H.
    destruct (first_word_of (fun s => s ← immediate_operand s; memory_address s)
                _ _ _ ltac:(repeat eff_step) Hpass H)
      as (lo & hi & rest & Hout & Hw).
    destruct (encode_one_operand_field _ _ _ Hv1) as (f & -> & Hf & Hk1 & Hk2 & Hk3).
    assert (P : exists p, v2 = Z.shiftl 1 12 + Z.shiftl f 4 + p /\ (p = 1 \/ p = 2) /\
                  (PyStr.lower (op2 s) = "in" -> p = 1) /\
                  (PyStr.lower (op2 s) = "out" -> p = 2)).
    { clear Hv0 H Hw.
      destruct (String.eqb_spec (PyStr.lower (op2 s)) "in") as [E|E].
      - injection Hv2 as <-. exists 1. rewrite E.
        repeat split; auto. intros ?; discriminate.
      - destruct (String.eqb_spec (PyStr.lower (op2 s)) "out") as [E'|E'];
          [|discriminate].
        injection Hv2 as <-. exists 2. rewrite E'.
        repeat split; auto. intros ?; discriminate. }
    destruct P as (p & -> & Hp & Hin & Hout').
    exists lo, hi, rest, f, p. split; [exact Hout|]. rewrite Hw.
    split; [by apply fields_of_io_word|]. auto.
  - intros h k Hin _. simpl in Hin.
    repeat (destruct Hin as [[= <- <-] | Hin]; [|]); try contradiction.
    + unfold _mv. encoded_case.
      apply (Two 0 (fun s => s ← immediate_operand s; memory_address s) v0);
        [repeat eff_step | lia | exact Hv0 | exact H].
    + unfold _add. encoded_case.
      apply (Two 4 (fun s => s ← immediate_operand s; memory_address s) v0);
        [repeat eff_step | lia | exact Hv0 | exact H].
    + unfold _sub. encoded_case.
      apply (Two 5 (fun s => s ← immediate_operand s; memory_address s) v0);
        [repeat eff_step | lia | exact Hv0 | exact H].
    + unfold _and. encoded_case.
      apply (Two 8 (fun s => s ← immediate_operand s; memory_address s) v0);
        [repeat eff_step | lia | exact Hv0 | exact H].
    + unfold _or. encoded_case.
      apply (Two 9 (fun s => s ← immediate_operand s; memory_address s) v0);
        [repeat eff_step | lia | exact Hv0 | exact H].
    + unfold _not. encoded_case.
      apply (Two 10 (fun s => s ← immediate_operand s; memory_address s) v0);
        [repeat eff_step | lia | exact Hv0 | exact H].
    + unfold _cmp. encoded_case.
      apply (Two 11 (fun s => s ← immediate_operand s; memory_address s) v0);
        [repeat eff_step | lia | exact Hv0 | exact H].
Qed.

Lemma C4_operand_1_field_of_the_emitted_word_witness :
  let s := from_ok (parse "io #2, out" (begin_pass fresh)) in
  let s' := from_ok (_io s) in
  get_pass_number s <> 1 /\
  _io s = Ok s' /\
  exists lo hi rest f p,
    output s' = (output s ++ lo :: hi :: rest)%list /\
    fields (from_bytes_unsigned [lo; hi]) = (1, 0, f, p) /\
    (op1_type s = "imm" -> f = 14) /\
    (op1_type s = "mem_adr" \/ op1_type s = "label" -> f = 15) /\
    (op1_type s = "" -> f = 0) /\
    (PyStr.lower (op2 s) = "in" -> p = 1) /\
    (PyStr.lower (op2 s) = "out" -> p = 2).
Proof.
  cbv zeta.
  assert (Hp : get_pass_number (from_ok (parse "io #2, out" (begin_pass fresh))) <> 1)
    by (vm_compute; discriminate).
  assert (Hok : _io (from_ok (parse "io #2, out" (begin_pass fresh)))
                = Ok (from_ok (_io (from_ok (parse "io #2, out" (begin_pass fresh))))))
    by (vm_compute; reflexivity).
  split; [exact Hp|]. split; [exact Hok|].
  exact (proj1 (proj2 (C4_operand_1_field_is_bits_7_to_4_of_the_emitted_word
                         (from_ok (parse "io #2, out" (begin_pass fresh)))
                         (from_ok (_io (from_ok (parse "io #2, out" (begin_pass fresh)))))
                         Hp)) Hok).
Defined.

(** ** Data words *)

Lemma to_bytes_signed_cases n :
  if (-32768 <=? n) && (n <? 32768)
  then exists bs, to_bytes_signed n = Ok bs /\ length bs = 2%nat
                  /\ from_bytes_signed bs = n
  else to_bytes_signed n = Raise OverflowError.
Proof.
  destruct (to_bytes_cases n) as (_ & S & _ & O).
  destruct (Z.leb_spec (-32768) n), (Z.ltb_spec n 32768); simpl;
    first [apply S; lia | apply O; lia].
Qed.

(** X12: what [.data] does with its argument.  For a labelled [.data] with
    one operand, outside pass 1: an argument that is not an integer stops
    the run with the diagnostic [Error reading ..., not an integer]; an
    integer in -32768..32767 is appended as two bytes from which it is read
    back as a signed little-endian word, and the location counter stays;
    any other integer is an uncaught [OverflowError]. *)
Theorem X12_data_directive_outcomes
    (s : Assembler)
    (Hlabel : label s <> "") (Hop1 : op1 s <> "") (Hop2 : op2 s = "")
    (Hpass : get_pass_number s <> 1) :
  match PyStr.int (op1 s) with
  | None =>
      directive_data s
      = Exit (line_number s + 1)
          ("Error reading " ++ quoted (op1 s) ++ ", not an integer")
  | Some n =>
      if (-32768 <=? n) && (n <? 32768)
      then exists bs, directive_data s = Ok (upd s 0 bs) /\ length bs = 2%nat
                      /\ from_bytes_signed bs = n
      else directive_data s = Raise OverflowError
  end.
Proof.
  unfold directive_data, require_label, verify_ops, only_first.
  apply String.eqb_neq in Hlabel. apply truthy_nonempty in Hop1.
  rewrite Hlabel, Hop1, Hop2. simpl.
  destruct (PyStr.int (op1 s)) as [n|]; [|reflexivity].
  pose proof (to_bytes_signed_cases n) as C.
  destruct ((-32768 <=? n) && (n <? 32768)).
  - destruct C as (bs & -> & Hl & Hr). exists bs. simpl.
    rewrite pass_action_pass2 by done. auto.
  - rewrite C. reflexivity.
Qed.

Lemma X12_data_directive_witness :
  let s := from_ok (parse "count: .data -2" (begin_pass fresh)) in
  match PyStr.int (op1 s) with
  | None =>
      directive_data s
      = Exit (line_number s + 1)
          ("Error reading " ++ quoted (op1 s) ++ ", not an integer")
  | Some n =>
      if (-32768 <=? n) && (n <? 32768)
      then exists bs, directive_data s = Ok (upd s 0 bs) /\ length bs = 2%nat
                      /\ from_bytes_signed bs = n
      else directive_data s = Raise OverflowError
  end.
Proof.
  cbv zeta.
  apply (X12_data_directive_outcomes (from_ok (parse "count: .data -2" (begin_pass fresh)))).
  - vm_compute. discriminate.
  - vm_compute. discriminate.
  - vm_compute. reflexivity.
  - vm_compute. discriminate.
Defined.

(** X13: a non-zero literal as operand 1.  Outside pass 1, when operand 1
    is an Immediate or a LabelRef and [to_int] reads it as a non-zero
    integer, the location counter advances by one and the integer is
    appended as a signed little-endian word if it lies in -32768..32767;
    otherwise the statement ends in an uncaught [OverflowError]. *)
Theorem X13_literal_operand_word
    (s : Assembler) (n : Z)
    (Hkind : op1_type s = "imm" \/ op1_type s = "label")
    (Hint : to_int (op1 s) = Ok (Some n))
    (Hn : n <> 0)
    (Hpass : get_pass_number s <> 1) :
  if (-32768 <=? n) && (n <? 32768)
  then exists bs, immediate_operand s = Ok (upd s 1 bs) /\ length bs = 2%nat
                  /\ from_bytes_signed bs = n
  else immediate_operand s = Raise OverflowError.
Proof.
  unfold immediate_operand.
  assert (K : negb (existsb (String.eqb (op1_type s)) ["imm"; "label"]) = false).
  { destruct Hkind as [-> | ->]; reflexivity. }
  rewrite K. assert (Hp := Hpass). apply Z.eqb_neq in Hp. rewrite Hp.
  cbn [orb op1 set_address]. unfold to_int_or_get_label. rewrite Hint.
  cbn [mbind result_bind]. apply Z.eqb_neq in Hn. rewrite Hn.
  cbn [mbind result_bind].
  pose proof (to_bytes_signed_cases n) as C.
  destruct ((-32768 <=? n) && (n <? 32768)).
  - destruct C as (bs & -> & Hl & Hr). exists bs. cbn [mbind result_bind].
    rewrite pass_action_pass2 by done. split; [|auto].
    destruct s; unfold upd, set_output, set_address; simpl.
    rewrite Z.add_0_r. reflexivity.
  - rewrite C. reflexivity.
Qed.

Lemma X13_literal_operand_witness :
  let s := from_ok (parse "push #-300" (begin_pass fresh)) in
  if (-32768 <=? -300) && (-300 <? 32768)
  then exists bs, immediate_operand s = Ok (upd s 1 bs) /\ length bs = 2%nat
                  /\ from_bytes_signed bs = -300
  else immediate_operand s = Raise OverflowError.
Proof.
  cbv zeta.
  apply (X13_literal_operand_word (from_ok (parse "push #-300" (begin_pass fresh))) (-300)).
  - left. vm_compute. reflexivity.
  - vm_compute. reflexivity.
  - lia.
  - vm_compute. discriminate.
Defined.

(** X14: a symbol reference cannot be resolved while the symbol table is
    empty.  Outside pass 1, when operand 1 is an Immediate or a LabelRef
    that [to_int] does not read as a number, the statement stops with the
    diagnostic [Undefined label] naming the operand. *)
Theorem X14_symbol_reference_is_undefined
    (s : Assembler)
    (Hkind : op1_type s = "imm" \/ op1_type s = "label")
    (Hint : to_int (op1 s) = Ok None)
    (Hsym : symbol_table s = ∅)
    (Hpass : get_pass_number s <> 1) :
  immediate_operand s
  = Exit (line_number s + 1) ("Undefined label " ++ quoted (op1 s)).
Proof.
  unfold immediate_operand.
  assert (K : negb (existsb (String.eqb (op1_type s)) ["imm"; "label"]) = false).
  { destruct Hkind as [-> | ->]; reflexivity. }
  rewrite K. assert (Hp := Hpass). apply Z.eqb_neq in Hp. rewrite Hp.
  cbn [orb op1 set_address]. unfold to_int_or_get_label. rewrite Hint.
  cbn [mbind result_bind]. unfold get_label.
  cbn [symbol_table set_address]. rewrite Hsym, lookup_empty.
  rewrite bool_decide_eq_false_2 by (intros [? ?]; discriminate).
  reflexivity.
Qed.

Lemma X14_symbol_reference_witness :
  let s := from_ok (parse "call print" (begin_pass fresh)) in
  immediate_operand s
  = Exit (line_number s + 1) ("Undefined label " ++ quoted (op1 s)).
Proof.
  cbv zeta.
  apply (X14_symbol_reference_is_undefined (from_ok (parse "call print" (begin_pass fresh)))).
  - right. vm_compute. reflexivity.
  - vm_compute. reflexivity.
  - vm_compute. reflexivity.
  - vm_compute. discriminate.
Defined.

(** ** The symbol table *)

Lemma add_label_cases (s : Assembler) :
  match add_label s with
  | Ok s' =>
      symbol_table s !! PyStr.lower (label s) = None /\
      s' = set_symbol_table s
             (<[PyStr.lower (label s) := address s + ORIGIN]> (symbol_table s))
  | Exit n msg =>
      n = line_number s + 1 /\
      msg = "Duplicate label: " ++ quoted (label s) /\
      is_Some (symbol_table s !! PyStr.lower (label s))
  | Raise _ => False
  end.
Proof.
  unfold add_label.
  destruct (symbol_table s !! PyStr.lower (label s)) as [v|] eqn:E.
  - rewrite bool_decide_eq_true_2 by eauto. simpl. eauto.
  - rewrite bool_decide_eq_false_2 by (intros [? ?]; discriminate). simpl. auto.
Qed.

(** X15: binding and looking up a label.  [add_label] either stops with
    the diagnostic [Duplicate label], exactly when the lower-cased label is
    already bound, or binds it to the location counter plus the origin and
    changes nothing else.  Afterwards [get_label] of the lower-cased label
    returns that address, every name with another lower-case form is looked
    up as before, and a differently cased spelling of the label that is not
    itself a key raises [KeyError]. *)
Theorem X15_add_label_then_get_label (s : Assembler) :
  match add_label s with
  | Ok s' =>
      symbol_table s !! PyStr.lower (label s) = None /\
      s' = set_symbol_table s
             (<[PyStr.lower (label s) := address s + ORIGIN]> (symbol_table s)) /\
      get_label s' (PyStr.lower (label s)) = Ok (address s + ORIGIN) /\
      (forall q, PyStr.lower q <> PyStr.lower (label s) ->
                 get_label s' q = get_label s q) /\
      (forall q, PyStr.lower q = PyStr.lower (label s) ->
                 q <> PyStr.lower (label s) ->
                 symbol_table s !! q = None ->
                 get_label s' q = Raise KeyError)
  | Exit n msg =>
      n = line_number s + 1 /\
      msg = "Duplicate label: " ++ quoted (label s) /\
      is_Some (symbol_table s !! PyStr.lower (label s))
  | Raise _ => False
  end.
Proof.
  pose proof (add_label_cases s) as C.
  destruct (add_label s) as [s'|n msg|e]; [|exact C|exact C].
  destruct C as [Hnone ->]. split; [exact Hnone|]. split; [reflexivity|].
  unfold get_label. cbn [symbol_table set_symbol_table]. repeat split.
  - rewrite lower_idem, lookup_insert_eq.
    rewrite bool_decide_eq_true_2 by eauto. reflexivity.
  - intros q Hq.
    assert (Hne : PyStr.lower (label s) <> q).
    { intros <-. apply Hq. apply lower_idem. }
    rewrite lookup_insert_ne by congruence.
    rewrite lookup_insert_ne by exact Hne. reflexivity.
  - intros q Hq Hne Hnq. rewrite Hq, lookup_insert_eq.
    rewrite bool_decide_eq_true_2 by eauto.
    rewrite lookup_insert_ne by congruence. rewrite Hnq. reflexivity.
Qed.

Lemma ceil_half size : 0 <= size -> Z.quot size 2 + size mod 2 = (size + 1) / 2.
Proof. intros H. rewrite Z.quot_div_nonneg by lia. Z.to_euclidean_division_equations. lia. Qed.

(** X16: what [pass_action] does when the pass number is 1.  Without bytes
    it does nothing.  With bytes it first binds the label, if the statement
    has one (stopping on a label that is already bound), then advances the
    location counter by the size in 16-bit words, rounded up, and appends
    the bytes to the output all the same. *)
Theorem X16_pass_action_in_pass_1
    (s : Assembler) (size : Z) (b : byte) (bs : list byte)
    (Hpass : get_pass_number s = 1) (Hsize : 0 <= size) :
  pass_action s size [] = Ok s /\
  (label s = "" ->
   pass_action s size (b :: bs)
   = Ok (set_output (set_address s (address s + (size + 1) / 2))
           (output s ++ b :: bs))) /\
  (label s <> "" ->
   symbol_table s !! PyStr.lower (label s) = None ->
   pass_action s size (b :: bs)
   = Ok (set_output
           (set_address
              (set_symbol_table s
                 (<[PyStr.lower (label s) := address s + ORIGIN]> (symbol_table s)))
              (address s + (size + 1) / 2))
           (output s ++ b :: bs))) /\
  (label s <> "" ->
   is_Some (symbol_table s !! PyStr.lower (label s)) ->
   pass_action s size (b :: bs)
   = Exit (line_number s + 1) ("Duplicate label: " ++ quoted (label s))).
Proof.
  split; [reflexivity|].
  unfold pass_action. rewrite Hpass. cbn [Z.eqb Pos.eqb].
  repeat split.
  - intros ->. cbn [PyStr.truthy PyStr.nonempty mbind result_bind].
    rewrite ceil_half by done. reflexivity.
  - intros Hl Hn. apply truthy_nonempty in Hl. rewrite Hl.
    pose proof (add_label_cases s) as C.
    destruct (add_label s) as [s'|n msg|e].
    + destruct C as [_ ->]. cbn [mbind result_bind]. rewrite ceil_half by done.
      reflexivity.
    + destruct C as (_ & _ & [v Hv]). congruence.
    + contradiction.
  - intros Hl Hb. apply truthy_nonempty in Hl. rewrite Hl.
    pose proof (add_label_cases s) as C.
    destruct (add_label s) as [s'|n msg|e].
    + destruct C as [Hn _]. destruct Hb as [v Hv]. congruence.
    + destruct C as (-> & -> & _). reflexivity.
    + contradiction.
Qed.

Lemma X16_pass_action_in_pass_1_witness :
  let s := set_pass_number (from_ok (parse "msg: hlt" fresh)) 1 in
  pass_action s 3 [] = Ok s /\
  (label s = "" ->
   pass_action s 3 [x00; xf0; x00]
   = Ok (set_output (set_address s (address s + (3 + 1) / 2))
           (output s ++ [x00; xf0; x00]))) /\
  (label s <> "" ->
   symbol_table s !! PyStr.lower (label s) = None ->
   pass_action s 3 [x00; xf0; x00]
   = Ok (set_output
           (set_address
              (set_symbol_table s
                 (<[PyStr.lower (label s) := address s + ORIGIN]> (symbol_table s)))
              (address s + (3 + 1) / 2))
           (output s ++ [x00; xf0; x00]))) /\
  (label s <> "" ->
   is_Some (symbol_table s !! PyStr.lower (label s)) ->
   pass_action s 3 [x00; xf0; x00]
   = Exit (line_number s + 1) ("Duplicate label: " ++ quoted (label s))).
Proof.
  cbv zeta.
  apply (X16_pass_action_in_pass_1
           (set_pass_number (from_ok (parse "msg: hlt" fresh)) 1) 3 x00 [xf0; x00]).
  - vm_compute. reflexivity.
  - lia.
Defined.

(** ** Line numbers of diagnostics *)

Lemma Diag_const {A} (r : result A) :
  (forall n msg, r <> Exit n msg) -> Diag (fun _ => r).
Proof. intros H s n msg E. by apply H in E. Qed.

Lemma Diag_ok {A} (v : Assembler -> A) : Diag (fun s => Ok (v s)).
Proof. intros s n msg E. discriminate. Qed.

Lemma Diag_error {A} (m : Assembler -> string) :
  Diag (fun s => @write_error A s (m s)).
Proof. intros s n msg [= <- _]. reflexivity. Qed.

Lemma Diag_if {A} (c : Assembler -> bool) (a b : Assembler -> result A) :
  Diag a -> Diag b -> Diag (fun s => if c s then a s else b s).
Proof. intros Ha Hb s n msg E. destruct (c s); [by eapply Ha | by eapply Hb]. Qed.

Lemma Diag_bind {A B} (g : Assembler -> result A) (k : A -> Assembler -> result B) :
  Diag g -> (forall v, Diag (k v)) -> Diag (fun s => v ← g s; k v s).
Proof.
  intros Hg Hk s n msg E. destruct (g s) as [v| |] eqn:G; simpl in E.
  - by eapply Hk.
  - injection E as -> ->. by eapply Hg.
  - discriminate.
Qed.

Lemma LN_ret : LN Ok.
Proof. split; [by intros s s' [= <-] | apply Diag_ok]. Qed.

Lemma LN_error (m : Assembler -> string) : LN (fun s => write_error s (m s)).
Proof. split; [intros s s' E; discriminate | apply Diag_error]. Qed.

Lemma LN_if (c : Assembler -> bool) (a b : Assembler -> result Assembler) :
  LN a -> LN b -> LN (fun s => if c s then a s else b s).
Proof.
  intros [Ka Da] [Kb Db]. split; [|by apply Diag_if].
  intros s s' E. destruct (c s); [by apply Ka | by apply Kb].
Qed.

Lemma LN_bind f g : LN f -> LN g -> LN (fun s => s1 ← f s; g s1).
Proof.
  intros [Kf Df] [Kg Dg]. split.
  - intros s s' E. bind_inv E. rewrite (Kg _ _ E). by apply Kf.
  - intros s n msg E. destruct (f s) as [s1| |] eqn:F; simpl in E.
    + rewrite (Dg _ _ _ E). by rewrite (Kf _ _ F).
    + injection E as -> ->. by eapply Df.
    + discriminate.
Qed.

Lemma LN_bind_val {A} (g : Assembler -> result A) (k : A -> Assembler -> result Assembler) :
  Diag g -> (forall v, LN (k v)) -> LN (fun s => v ← g s; k v s).
Proof.
  intros Hg Hk. split.
  - intros s s' E. bind_inv E. by eapply Hk.
  - apply Diag_bind; [done|]. intros v. apply Hk.
Qed.

(** A step run on a state changed by [u], where [u] keeps the line number. *)
Lemma LN_after {X} (F : X -> Assembler -> result Assembler)
    (x : Assembler -> X) (u : Assembler -> Assembler) :
  (forall s, line_number (u s) = line_number s) ->
  (forall y, LN (F y)) -> LN (fun s => F (x s) (u s)).
Proof.
  intros Hu HF. split.
  - intros s s' E. destruct (HF (x s)) as [K _]. rewrite (K _ _ E). apply Hu.
  - intros s n msg E. destruct (HF (x s)) as [_ D]. rewrite (D _ _ _ E). by rewrite Hu.
Qed.

Lemma Diag_arg {A B} (g : Assembler -> B -> result A) (c : Assembler -> B) :
  (forall b, Diag (fun s => g s b)) -> Diag (fun s => g s (c s)).
Proof. intros Hg s n msg E. by eapply (Hg (c s)). Qed.

Lemma Diag_verify_ops (c : Assembler -> bool) : Diag (fun s => verify_ops s (c s)).
Proof. unfold verify_ops. apply Diag_if; [apply Diag_error | apply Diag_ok]. Qed.

Lemma Diag_register_offset reg : Diag (fun s => register_offset s reg).
Proof.
  intros s n msg. unfold register_offset.
  destruct (index_of _ _); [discriminate | intros [= <- _]; reflexivity].
Qed.

Ltac diag_step :=
  first
    [ apply Diag_ok
    | apply Diag_error
    | apply Diag_verify_ops
    | apply Diag_if
    | apply Diag_bind; [| intros ?] ].

Lemma Diag_encode_operand_types opcode n :
  Diag (fun s => encode_operand_types s opcode n).
Proof.
  unfold encode_operand_types.
  apply Diag_bind; [| intros ?].
  - repeat diag_step. apply (Diag_arg register_offset op1), Diag_register_offset.
  - repeat diag_step. apply (Diag_arg register_offset op2), Diag_register_offset.
Qed.

Lemma Diag_get_label q : Diag (fun s => get_label s q).
Proof.
  intros s n msg. unfold get_label.
  destruct (bool_decide _); [destruct (_ !! q); discriminate|].
  intros [= <- _]. reflexivity.
Qed.

Lemma Diag_to_int_or_get_label q : Diag (fun s => to_int_or_get_label s q).
Proof.
  intros s n msg. unfold to_int_or_get_label.
  destruct (to_int q) as [[v|]| |] eqn:E; simpl.
  - destruct (v =? 0); [apply Diag_get_label | discriminate].
  - apply Diag_get_label.
  - unfold to_int in E. repeat case_match; discriminate.
  - discriminate.
Qed.

Lemma to_bytes_unsigned_no_exit w n msg : to_bytes_unsigned w <> Exit n msg.
Proof. unfold to_bytes_unsigned. by destruct (_ && _). Qed.

Lemma to_bytes_signed_no_exit w n msg : to_bytes_signed w <> Exit n msg.
Proof. unfold to_bytes_signed. by destruct (_ && _). Qed.

Lemma LN_add_label : LN add_label.
Proof.
  split.
  - intros s s' E. pose proof (add_label_cases s) as C. rewrite E in C.
    destruct C as [_ ->]. reflexivity.
  - intros s n msg E. pose proof (add_label_cases s) as C. rewrite E in C.
    by destruct C as [-> _].
Qed.

Lemma LN_pass_action size bs : LN (fun s => pass_action s size bs).
Proof.
  unfold pass_action. destruct bs as [|b bs]; [apply LN_ret|].
  apply (LN_bind
           (fun s => if get_pass_number s =? 1
                     then self ← (if PyStr.truthy (label s) then add_label s else Ok s);
                          Ok (set_address self (address self + (size `quot` 2 + size `mod` 2)))
                     else Ok s)
           (fun s => Ok (set_output s (output s ++ b :: bs)))).
  - apply LN_if; [|apply LN_ret].
    apply (LN_bind (fun s => if PyStr.truthy (label s) then add_label s else Ok s)
             (fun s => Ok (set_address s (address s + (size `quot` 2 + size `mod` 2))))).
    + apply LN_if; [apply LN_add_label | apply LN_ret].
    + split; [by intros s s' [= <-] | apply Diag_ok].
  - split; [by intros s s' [= <-] | apply Diag_ok].
Qed.

Lemma LN_emit_opcode opcode : LN (fun s => emit_opcode s opcode).
Proof.
  unfold emit_opcode. apply LN_bind_val.
  - apply Diag_const. apply to_bytes_unsigned_no_exit.
  - intros data. apply LN_pass_action.
Qed.

Lemma LN_immediate_operand : LN immediate_operand.
Proof.
  unfold immediate_operand. apply LN_if; [apply LN_ret|].
  apply (LN_after
           (fun q s => number ← to_int_or_get_label s q;
                       data ← to_bytes_signed number; pass_action s 2 data)
           op1 (fun s => set_address s (address s + 1))); [reflexivity|].
  intros q. apply LN_bind_val; [apply Diag_to_int_or_get_label|].
  intros number. apply LN_bind_val.
  - apply Diag_const. apply to_bytes_signed_no_exit.
  - intros data. apply LN_pass_action.
Qed.

Lemma LN_memory_address_step item : LN (fun s => memory_address_step s item).
Proof.
  unfold memory_address_step. destruct item as [op_typ op].
  destruct (negb (String.eqb op_typ "mem_adr")); [apply LN_ret|].
  apply LN_bind_val; [apply Diag_to_int_or_get_label|].
  intros number. unfold int_with_base. simpl.
  split; [intros s s' E; discriminate | intros s n msg E; discriminate].
Qed.

Lemma LN_for_each {X} (body : Assembler -> X -> result Assembler) (items : list X) :
  (forall x, LN (fun s => body s x)) -> LN (for_each body items).
Proof.
  intros Hb. induction items as [|x items IH]; simpl; [apply LN_ret|].
  apply (LN_bind (fun s => body s x) (for_each body items)); [apply Hb | exact IH].
Qed.

Lemma LN_memory_address : LN memory_address.
Proof.
  unfold memory_address. apply LN_if; [apply LN_ret|].
  apply (LN_after
           (fun items s => for_each memory_address_step items s)
           (fun s => [(op1_type s, op1 s); (op2_type s, op2 s)])
           (fun s => set_address s (address s + 1))); [reflexivity|].
  intros items. apply LN_for_each, LN_memory_address_step.
Qed.

Ltac ln_step :=
  first
    [ apply LN_pass_action
    | apply LN_emit_opcode
    | apply LN_immediate_operand
    | apply LN_memory_address
    | apply LN_error
    | apply LN_bind
    | apply LN_bind_val; [| intros ?] ].

Ltac ln_handler :=
  repeat first
    [ ln_step
    | apply Diag_verify_ops
    | apply Diag_encode_operand_types
    | progress (repeat diag_step) ].

Lemma LN_handlers name handler :
  lookup_handler name handlers = Some handler -> LN handler.
Proof.
  unfold handlers. simpl.
  repeat (destruct (String.eqb name _);
          [intros [= <-];
           first
             [ (unfold _mv, _io, _push, _pop, _add, _sub, _inc, _dec, _and, _or,
                  _not, _cmp, _call, _jnz, _ret, _hlt; solve [ln_handler])
             | idtac ] |]).
  all: try discriminate.
  - unfold directive_data.
    apply LN_bind_val; [unfold require_label; repeat diag_step | intros _].
    apply LN_bind_val; [apply Diag_verify_ops | intros _].
    apply (LN_after
             (fun v s => match v with
                         | Some data => bytes ← to_bytes_signed data; pass_action s 2 bytes
                         | None => write_error s ("Error reading " ++ quoted (op1 s)
                                                  ++ ", not an integer")
                         end)
             (fun s => PyStr.int (op1 s)) (fun s => s)); [reflexivity|].
    intros [data|]; [|apply LN_error].
    apply LN_bind_val; [apply Diag_const, to_bytes_signed_no_exit|].
    intros bytes. apply LN_pass_action.
  - unfold directive_string.
    apply LN_bind_val; [unfold require_label; repeat diag_step | intros _].
    apply LN_bind_val; [apply Diag_verify_ops | intros _].
    apply (LN_after (fun data s => pass_action s (Z.of_nat (length data)) data)
             (fun s => PyStr.utf8
                         (let string := PyStr.strip_chars "'" (PyStr.strip_chars dq (op1 s)) in
                          if negb (Z.of_nat (String.length string) mod 2 =? 0)
                          then string ++ NUL else string ++ NUL ++ NUL))
             (fun s => s)); [reflexivity|].
    intros data. apply LN_pass_action.
  - split; [intros s s' E; discriminate | intros s n msg E; discriminate].
Qed.

Lemma LN_process : LN process.
Proof.
  split.
  - intros s s'. unfold process.
    destruct (negb _ && negb _); [by intros [= <-]|].
    destruct (lookup_handler _ handlers) as [handler|] eqn:L.
    + apply (LN_handlers _ _ L).
    + destruct (lookup_special _ special_attributes) as [[|e]|];
        [by intros [= <-] | discriminate | discriminate].
  - intros s n msg. unfold process.
    destruct (negb _ && negb _); [discriminate|].
    destruct (lookup_handler _ handlers) as [handler|] eqn:L.
    + apply (LN_handlers _ _ L).
    + destruct (lookup_special _ special_attributes) as [[|e]|];
        [discriminate | discriminate |].
      intros [= <- _]. reflexivity.
Qed.

Lemma assemble_line_line_number s line :
  match _assemble_line s line with
  | Ok s' => line_number s' = line_number s + 1
  | Exit n msg => n = line_number s + 1
  | Raise _ => True
  end.
Proof.
  unfold _assemble_line. pose proof (parse_outcome line s) as P.
  destruct (parse line s) as [s1|n msg|e]; simpl; [|by destruct P|done].
  destruct P as (P & _). destruct LN_process as [K D].
  destruct (process s1) as [s2|n msg|e] eqn:E; simpl; [|rewrite (D _ _ _ E); lia|done].
  rewrite (K _ _ E). lia.
Qed.

Lemma traversal_line_number lines : forall s,
  match for_each _assemble_line lines s with
  | Ok s' => line_number s' = line_number s + Z.of_nat (length lines)
  | Exit n msg =>
      exists pre line post s1,
        lines = (pre ++ line :: post)%list /\
        n = line_number s + Z.of_nat (length pre) + 1 /\
        for_each _assemble_line pre s = Ok s1 /\
        _assemble_line s1 line = Exit n msg
  | Raise _ => True
  end.
Proof.
  induction lines as [|line lines IH]; intros s; simpl; [lia|].
  pose proof (assemble_line_line_number s line) as L.
  destruct (_assemble_line s line) as [s1|n msg|e] eqn:E; simpl; [| |done].
  - specialize (IH s1).
    destruct (for_each _assemble_line lines s1) as [s'|n msg|e]; [lia| |done].
    destruct IH as (pre & l & post & s2 & -> & -> & Hpre & Hl).
    exists (line :: pre), l, post, s2.
    split; [reflexivity|]. split; [simpl length; lia|].
    split; [simpl; rewrite E; exact Hpre | exact Hl].
  - exists [], line, lines, s.
    split; [reflexivity|]. split; [simpl; lia|]. split; [reflexivity | exact E].
Qed.

Lemma second_traversal_repeats (lines : list string) :
  match assemble lines fresh with
  | Ok s1 =>
      exists s2,
        two_passes lines = Ok s2 /\
        output s2 = (output s1 ++ output s1)%list /\
        line_number s1 = Z.of_nat (length lines) /\
        line_number s2 = 2 * Z.of_nat (length lines) /\
        symbol_table s2 = ∅
  | Exit n msg => two_passes lines = Exit n msg
  | Raise e => two_passes lines = Raise e
  end.
Proof.
  unfold two_passes.
  destruct (assemble lines fresh) as [s1| |] eqn:E1; [|reflexivity|reflexivity].
  cbn [mbind result_bind]. unfold assemble in *.
  destruct (traversal_repeatable lines (begin_pass fresh) s1)
    as (da & bs & _ & Adv & Ht); [by vm_compute | done |].
  destruct (Ht (begin_pass s1)) as (s2 & E2 & Adv2).
  { cbn [symbol_table begin_pass set_pass_number]. apply (adv_symbols _ _ _ _ Adv). }
  { rewrite begin_pass_number, (advances_pass _ _ _ _ Adv). by vm_compute. }
  exists s2. split; [exact E2|].
  pose proof (traversal_line_number lines (begin_pass fresh)) as L1.
  pose proof (traversal_line_number lines (begin_pass s1)) as L2.
  rewrite E1 in L1. rewrite E2 in L2.
  cbn [line_number begin_pass set_pass_number fresh] in L1, L2.
  repeat split.
  - rewrite (adv_output _ _ _ _ Adv2). cbn [output begin_pass set_pass_number].
    rewrite (adv_output _ _ _ _ Adv). reflexivity.
  - lia.
  - lia.
  - rewrite (adv_symbols _ _ _ _ Adv2). cbn [symbol_table begin_pass set_pass_number].
    apply (adv_symbols _ _ _ _ Adv).
Qed.

(** X17: the second traversal repeats the first.  If the first call of
    [assemble] runs to completion, so does the second: it appends the same
    bytes once more, so the output image holds the program twice, and it
    counts the lines once more, so the line number ends at twice the number
    of lines; the symbol table is still empty.  If the first call stops,
    the run stops there in the same way. *)
Theorem X17_second_traversal_repeats_the_first (lines : list string) :
  match assemble lines fresh with
  | Ok s1 =>
      exists s2,
        two_passes lines = Ok s2 /\
        output s2 = (output s1 ++ output s1)%list /\
        line_number s1 = Z.of_nat (length lines) /\
        line_number s2 = 2 * Z.of_nat (length lines) /\
        symbol_table s2 = ∅
  | Exit n msg => two_passes lines = Exit n msg
  | Raise e => two_passes lines = Raise e
  end.
Proof. exact (second_traversal_repeats lines). Qed.

(** X18: a diagnostic names the line that caused it.  When the run stops
    with a diagnostic for line [n], the file has at least [n] lines, the
    [n - 1] lines before it were assembled, and it is the [n]-th line on
    which [_assemble_line] stopped, during the first traversal. *)
Theorem X18_diagnostic_names_the_failing_line
    (lines : list string) (n : Z) (msg : string)
    (H : two_passes lines = Exit n msg) :
  1 <= n <= Z.of_nat (length lines) /\
  exists pre line post s,
    lines = (pre ++ line :: post)%list /\
    Z.of_nat (length pre) = n - 1 /\
    for_each _assemble_line pre (begin_pass fresh) = Ok s /\
    _assemble_line s line = Exit n msg.
Proof.
  pose proof (second_traversal_repeats lines) as R.
  pose proof (traversal_line_number lines (begin_pass fresh)) as L.
  unfold assemble in R. cbv zeta in R.
  destruct (for_each _assemble_line lines (begin_pass fresh)) as [s1|n' msg'|e].
  - destruct R as (s2 & R & _). rewrite R in H. discriminate.
  - rewrite R in H. injection H as -> ->.
    destruct L as (pre & line & post & s & -> & Hn & Hpre & Hline).
    cbn [line_number begin_pass set_pass_number fresh] in Hn.
    split; [rewrite length_app; simpl; lia|].
    exists pre, line, post, s. repeat split; [lia | exact Hpre | exact Hline].
  - rewrite R in H. discriminate.
Qed.

Lemma X18_diagnostic_witness :
  1 <= 3 <= Z.of_nat (length ["mv #1, a"; ""; "jnz loop"; "hlt"]) /\
  exists pre line post s,
    ["mv #1, a"; ""; "jnz loop"; "hlt"] = (pre ++ line :: post)%list /\
    Z.of_nat (length pre) = 3 - 1 /\
    for_each _assemble_line pre (begin_pass fresh) = Ok s /\
    _assemble_line s line
    = Exit 3 ("Undefined label " ++ quoted "loop").
Proof.
  apply (X18_diagnostic_names_the_failing_line
           ["mv #1, a"; ""; "jnz loop"; "hlt"] 3
           ("Undefined label " ++ quoted "loop")).
  vm_compute. reflexivity.
Defined.

(** ** The size of an instruction *)

Lemma Trail_ret : Trail Ok.
Proof. intros s s' _ [= <-]. by left. Qed.

Lemma Trail_immediate_operand : Trail immediate_operand.
Proof.
  intros s s' Hp H. unfold immediate_operand in H.
  assert (Hp' := Hp). apply Z.eqb_neq in Hp'. rewrite Hp', orb_false_r in H.
  destruct (negb _); [injection H as <-; by left|].
  bind_inv H. bind_inv H. rewrite pass_action_pass2 in H by done. injection H as <-.
  right. exists v0. split.
  - destruct s; unfold upd, set_output, set_address; simpl.
    rewrite Z.add_0_r. reflexivity.
  - unfold to_bytes_signed in Hv0. destruct (_ && _); [|discriminate].
    by injection Hv0 as <-.
Qed.

Lemma memory_address_ok s s' :
  get_pass_number s <> 1 -> memory_address s = Ok s' -> s' = s.
Proof.
  intros Hp H.
  destruct (existsb (String.eqb "mem_adr") [op1_type s; op2_type s]) eqn:E.
  - assert (F : is_ok (memory_address s) = false).
    { apply memory_address_fails; [done|]. simpl in E.
      rewrite orb_false_r in E. apply orb_prop in E.
      destruct E as [E|E]; apply String.eqb_eq in E; auto. }
    rewrite H in F. discriminate.
  - unfold memory_address in H. rewrite E, orb_true_r in H. by injection H as <-.
Qed.

Lemma Trail_memory_address : Trail memory_address.
Proof. intros s s' Hp H. left. by apply memory_address_ok. Qed.

Lemma Trail_immediate_then_memory :
  Trail (fun s => s ← immediate_operand s; memory_address s).
Proof.
  intros s s' Hp H. bind_inv H. rename v into s1.
  destruct (Trail_immediate_operand _ _ Hp Hv) as [-> | (bs & -> & Hl)].
  - by apply Trail_memory_address.
  - rewrite (memory_address_ok (upd s 1 bs) s' Hp H). right. eauto.
Qed.

(** X19: an instruction occupies one or two words.  Whenever one of the
    sixteen handlers succeeds outside pass 1 it appends either two bytes
    and leaves the location counter, or four bytes (the opcode word and one
    trailing word) and advances the counter by one; it changes nothing
    else. *)
Theorem X19_instruction_size
    (h : Assembler -> result Assembler) (k : Z) (s s' : Assembler)
    (Hin : In (h, k) opcodes)
    (Hpass : get_pass_number s <> 1)
    (Hok : h s = Ok s') :
  exists bs,
    (length bs = 2%nat /\ s' = upd s 0 bs) \/
    (length bs = 4%nat /\ s' = upd s 1 bs).
Proof.
  assert (Step : forall cont w,
             Trail cont -> (s1 ← emit_opcode s w; cont s1) = Ok s' ->
             exists bs,
               (length bs = 2%nat /\ s' = upd s 0 bs) \/
               (length bs = 4%nat /\ s' = upd s 1 bs)).
  { intros cont w Hc H. bind_inv H. rename v into s1.
    unfold emit_opcode in Hv. bind_inv Hv.
    unfold to_bytes_unsigned in Hv0. destruct (_ && _); [|discriminate].
    injection Hv0 as <-. rewrite pass_action_pass2 in Hv by done. injection Hv as <-.
    destruct (Hc (upd s 0 (word_bytes w)) s' Hpass H) as [-> | (bs & -> & Hl)].
    - exists (word_bytes w). left. split; reflexivity.
    - exists (word_bytes w ++ bs)%list. right. split.
      + rewrite length_app, Hl. reflexivity.
      + rewrite upd_upd. reflexivity. }
  assert (Fixed : forall lo hi,
             pass_action s 2 [lo; hi] = Ok s' ->
             exists bs,
               (length bs = 2%nat /\ s' = upd s 0 bs) \/
               (length bs = 4%nat /\ s' = upd s 1 bs)).
  { intros lo hi H. rewrite pass_action_pass2 in H by done. injection H as <-.
    exists [lo; hi]. left. split; reflexivity. }
  simpl in Hin. revert Hok.
  repeat (destruct Hin as [[= <- <-] | Hin]; [|]); try contradiction.
  all: unfold _mv, _io, _push, _pop, _add, _sub, _inc, _dec, _and, _or, _not,
         _cmp, _call, _jnz, _ret, _hlt; intros H.
  all: try (do 2 bind_inv H;
            first
              [ apply (Step (fun s => s ← immediate_operand s; memory_address s) v0);
                [apply Trail_immediate_then_memory | exact H]
              | apply (Step memory_address v0); [apply Trail_memory_address | exact H]
              | apply (Step immediate_operand v0);
                [apply Trail_immediate_operand | exact H]
              | apply (Step Ok v0); [apply Trail_ret | rewrite H; reflexivity] ]).
  - do 4 bind_inv H.
    apply (Step (fun s => s ← immediate_operand s; memory_address s) v2);
      [apply Trail_immediate_then_memory | exact H].
  - bind_inv H. by eapply Fixed.
  - bind_inv H. by eapply Fixed.
Qed.

Lemma X19_instruction_size_witness :
  let s := from_ok (parse "sub #258, c" (begin_pass fresh)) in
  let s' := from_ok (_sub s) in
  exists bs,
    (length bs = 2%nat /\ s' = upd s 0 bs) \/
    (length bs = 4%nat /\ s' = upd s 1 bs).
Proof.
  cbv zeta.
  apply (X19_instruction_size _sub 5).
  - simpl. do 5 right. left. reflexivity.
  - vm_compute. discriminate.
  - vm_compute. reflexivity.
Defined.

(** ** Nothing is taken back *)

Lemma grows_refl s : grows s s.
Proof. constructor; [exists []; by rewrite app_nil_r | lia | done | done]. Qed.

Lemma grows_trans s1 s2 s3 : grows s1 s2 -> grows s2 s3 -> grows s1 s3.
Proof.
  intros [[b1 O1] A1 P1 S1] [[b2 O2] A2 P2 S2]. constructor.
  - exists (b1 ++ b2)%list. rewrite O2, O1. symmetry. apply app_assoc.
  - lia.
  - congruence.
  - by etrans.
Qed.

Lemma Mono_ret : Mono Ok.
Proof. intros s s' [= <-]. apply grows_refl. Qed.

Lemma Mono_error (m : Assembler -> string) : Mono (fun s => write_error s (m s)).
Proof. intros s s' E. discriminate. Qed.

Lemma Mono_if (c : Assembler -> bool) (a b : Assembler -> result Assembler) :
  Mono a -> Mono b -> Mono (fun s => if c s then a s else b s).
Proof. intros Ha Hb s s' E. destruct (c s); [by apply Ha | by apply Hb]. Qed.

Lemma Mono_bind f g : Mono f -> Mono g -> Mono (fun s => s1 ← f s; g s1).
Proof.
  intros Hf Hg s s' E. bind_inv E.
  eapply grows_trans; [by apply Hf | by apply Hg].
Qed.

Lemma Mono_bind_val {A} (g : Assembler -> result A) (k : A -> Assembler -> result Assembler) :
  (forall v, Mono (k v)) -> Mono (fun s => v ← g s; k v s).
Proof. intros Hk s s' E. bind_inv E. by eapply Hk. Qed.

Lemma Mono_after {X} (F : X -> Assembler -> result Assembler)
    (x : Assembler -> X) (u : Assembler -> Assembler) :
  (forall s, grows s (u s)) -> (forall y, Mono (F y)) -> Mono (fun s => F (x s) (u s)).
Proof.
  intros Hu HF s s' E. eapply grows_trans; [apply Hu | by eapply HF].
Qed.

Lemma grows_set_address s a : address s <= a -> grows s (set_address s a).
Proof.
  intros H. constructor; simpl; [exists []; by rewrite app_nil_r | done | done | done].
Qed.

Lemma grows_set_output s bs : grows s (set_output s (output s ++ bs)).
Proof. constructor; simpl; [by exists bs | lia | done | done]. Qed.

Lemma Mono_add_label : Mono add_label.
Proof.
  intros s s' E. pose proof (add_label_cases s) as C. rewrite E in C.
  destruct C as [Hn ->]. constructor; simpl; [exists []; by rewrite app_nil_r | lia | done |].
  by apply insert_subseteq.
Qed.

Lemma Mono_pass_action size bs : 0 <= size -> Mono (fun s => pass_action s size bs).
Proof.
  intros Hsize. unfold pass_action. destruct bs as [|b bs]; [apply Mono_ret|].
  apply (Mono_bind
           (fun s => if get_pass_number s =? 1
                     then self ← (if PyStr.truthy (label s) then add_label s else Ok s);
                          Ok (set_address self (address self + (size `quot` 2 + size `mod` 2)))
                     else Ok s)
           (fun s => Ok (set_output s (output s ++ b :: bs)))).
  - apply Mono_if; [|apply Mono_ret].
    apply (Mono_bind (fun s => if PyStr.truthy (label s) then add_label s else Ok s)
             (fun s => Ok (set_address s (address s + (size `quot` 2 + size `mod` 2))))).
    + apply Mono_if; [apply Mono_add_label | apply Mono_ret].
    + intros s s' [= <-]. apply grows_set_address.
      rewrite ceil_half by done. assert (0 <= (size + 1) / 2) by (apply Z.div_pos; lia).
      lia.
  - intros s s' [= <-]. apply grows_set_output.
Qed.

Lemma Mono_emit_opcode opcode : Mono (fun s => emit_opcode s opcode).
Proof.
  unfold emit_opcode. apply Mono_bind_val. intros data. by apply Mono_pass_action.
Qed.

Lemma Mono_immediate_operand : Mono immediate_operand.
Proof.
  unfold immediate_operand. apply Mono_if; [apply Mono_ret|].
  apply (Mono_after
           (fun q s => number ← to_int_or_get_label s q;
                       data ← to_bytes_signed number; pass_action s 2 data)
           op1 (fun s => set_address s (address s + 1))).
  - intros s. apply grows_set_address. lia.
  - intros q. apply Mono_bind_val. intros number. apply Mono_bind_val.
    intros data. by apply Mono_pass_action.
Qed.

Lemma Mono_for_each {X} (body : Assembler -> X -> result Assembler) (items : list X) :
  (forall x, Mono (fun s => body s x)) -> Mono (for_each body items).
Proof.
  intros Hb. induction items as [|x items IH]; simpl; [apply Mono_ret|].
  apply (Mono_bind (fun s => body s x) (for_each body items)); [apply Hb | exact IH].
Qed.

Lemma Mono_memory_address_step item : Mono (fun s => memory_address_step s item).
Proof.
  unfold memory_address_step. destruct item as [op_typ op].
  destruct (negb (String.eqb op_typ "mem_adr")); [apply Mono_ret|].
  apply Mono_bind_val. intros number. intros s s' E. discriminate.
Qed.

Lemma Mono_memory_address : Mono memory_address.
Proof.
  unfold memory_address. apply Mono_if; [apply Mono_ret|].
  apply (Mono_after
           (fun items s => for_each memory_address_step items s)
           (fun s => [(op1_type s, op1 s); (op2_type s, op2 s)])
           (fun s => set_address s (address s + 1))).
  - intros s. apply grows_set_address. lia.
  - intros items. apply Mono_for_each, Mono_memory_address_step.
Qed.

Ltac mono_step :=
  first
    [ apply Mono_pass_action; lia
    | apply Mono_emit_opcode
    | apply Mono_immediate_operand
    | apply Mono_memory_address
    | apply Mono_error
    | apply Mono_bind
    | apply Mono_bind_val; intros ? ].

Lemma Mono_handlers name handler :
  lookup_handler name handlers = Some handler -> Mono handler.
Proof.
  unfold handlers. simpl.
  repeat (destruct (String.eqb name _);
          [intros [= <-];
           first
             [ (unfold _mv, _io, _push, _pop, _add, _sub, _inc, _dec, _and, _or,
                  _not, _cmp, _call, _jnz, _ret, _hlt; solve [repeat mono_step])
             | idtac ] |]).
  all: try discriminate.
  - unfold directive_data. do 2 (apply Mono_bind_val; intros _).
    apply (Mono_after
             (fun v s => match v with
                         | Some data => bytes ← to_bytes_signed data; pass_action s 2 bytes
                         | None => write_error s ("Error reading " ++ quoted (op1 s)
                                                  ++ ", not an integer")
                         end)
             (fun s => PyStr.int (op1 s)) (fun s => s)); [apply grows_refl|].
    intros [data|]; [|apply Mono_error].
    apply Mono_bind_val. intros bytes. by apply Mono_pass_action.
  - unfold directive_string. do 2 (apply Mono_bind_val; intros _).
    apply (Mono_after (fun data s => pass_action s (Z.of_nat (length data)) data)
             (fun s => PyStr.utf8
                         (let string := PyStr.strip_chars "'" (PyStr.strip_chars dq (op1 s)) in
                          if negb (Z.of_nat (String.length string) mod 2 =? 0)
                          then string ++ NUL else string ++ NUL ++ NUL))
             (fun s => s)); [apply grows_refl|].
    intros data. apply Mono_pass_action. lia.
Qed.

Lemma Mono_process : Mono process.
Proof.
  intros s s'. unfold process.
  destruct (negb _ && negb _); [intros [= <-]; apply grows_refl|].
  destruct (lookup_handler _ handlers) as [handler|] eqn:L.
  - apply (Mono_handlers _ _ L).
  - destruct (lookup_special _ special_attributes) as [[|e]|];
      [intros [= <-]; apply grows_refl | discriminate | discriminate].
Qed.

Lemma assemble_line_grows s s' line : _assemble_line s line = Ok s' -> grows s s'.
Proof.
  unfold _assemble_line. intros H. bind_inv H. rename v into s1.
  bind_inv H. rename v into s2. injection H as <-.
  destruct (parse_retoken _ _ _ s Hv) as [Hs1 _].
  apply grows_trans with s1.
  { rewrite Hs1. constructor; simpl; [exists []; by rewrite app_nil_r | lia | done | done]. }
  apply grows_trans with s2; [by apply Mono_process|].
  constructor; simpl; [exists []; by rewrite app_nil_r | lia | done | done].
Qed.

(** X20: a traversal takes nothing back, in whatever pass it runs.  After
    any number of lines assembled from any state, the earlier output is a
    prefix of the output, the location counter has not decreased, the pass
    number is unchanged, and every symbol that was bound is still bound to
    the same address. *)
Theorem X20_traversal_takes_nothing_back
    (lines : list string) (s s' : Assembler)
    (H : for_each _assemble_line lines s = Ok s') :
  grows s s'.
Proof.
  revert s H. induction lines as [|line lines IH]; intros s H; simpl in H.
  - injection H as <-. apply grows_refl.
  - bind_inv H. eapply grows_trans; [by eapply assemble_line_grows | by apply IH].
Qed.

Lemma X20_traversal_witness :
  grows (set_pass_number fresh 1)
    (from_ok (for_each _assemble_line ["top: mv #1, a"; "n: .data 7"; "hlt"]
                (set_pass_number fresh 1))).
Proof.
  apply (X20_traversal_takes_nothing_back ["top: mv #1, a"; "n: .data 7"; "hlt"]).
  vm_compute. reflexivity.
Defined.

(** ** The location counter across the passes *)






(** ** Directive recognition *)

(** X21: how a directive is recognized.  The directive is [.data] when
    that keyword occurs in the line, else [.string] when that one occurs,
    else there is none, and then label and argument are empty and the line
    is never rejected.  A label that is returned is alphanumeric and does
    not start with a digit; the recognizer never raises an exception. *)
Theorem X21_directive_recognition (s : Assembler) (line : string) :
  match parse_directive s line with
  | Ok (l, d, a) =>
      d = (if occurs ".data" line then ".data"
           else if occurs ".string" line then ".string" else "") /\
      (d = "" -> l = "" /\ a = "") /\
      (l = "" \/ (PyStr.isalnum l = true /\ PyStr.head_isdigit l = false))
  | Exit _ _ => occurs ".data" line || occurs ".string" line = true
  | Raise _ => False
  end.
Proof.
  unfold parse_directive, PyStr.partition, occurs.
  destruct (PyStr.find_split ".data" line) as [[left1 right1]|].
  - cbn [PyStr.truthy PyStr.nonempty negb].
    destruct (PyStr.find_split ":" left1) as [[left2 right2]|].
    + cbn [String.eqb]. rewrite String.eqb_refl.
      destruct (negb (PyStr.isalnum (PyStr.strip left2))
                || PyStr.head_isdigit (PyStr.strip left2)) eqn:E; simpl; [reflexivity|].
      apply orb_false_elim in E. destruct E as [E1 E2].
      apply negb_false_iff in E1. split; [reflexivity|]. split; [intros ?; discriminate | auto].
    + change (String.eqb "" ":") with false. cbn [negb andb].
      destruct (negb (String.eqb (PyStr.strip left1) "")); simpl; [reflexivity|].
      split; [reflexivity|]. split; [intros ?; discriminate | auto].
  - cbn [PyStr.truthy PyStr.nonempty negb].
    destruct (PyStr.find_split ".string" line) as [[left1 right1]|].
    + cbn [PyStr.truthy PyStr.nonempty negb].
      destruct (PyStr.find_split ":" left1) as [[left2 right2]|].
      * rewrite String.eqb_refl.
        destruct (negb (PyStr.isalnum (PyStr.strip left2))
                  || PyStr.head_isdigit (PyStr.strip left2)) eqn:E; simpl; [reflexivity|].
        apply orb_false_elim in E. destruct E as [E1 E2].
        apply negb_false_iff in E1. split; [reflexivity|]. split; [intros ?; discriminate | auto].
      * change (String.eqb "" ":") with false. cbn [negb andb].
        destruct (negb (String.eqb (PyStr.strip left1) "")); simpl; [reflexivity|].
        split; [reflexivity|]. split; [intros ?; discriminate | auto].
    + cbn [PyStr.truthy PyStr.nonempty negb]. split; [reflexivity|]. auto.
Qed.
